(** * Gas Hydrate Stability Zone solver (GHSZ.py): a shallow embedding

    The script computes, for every cell of a depth raster, the depth below
    the sea floor at which the gas hydrate stability zone ends (JOIDES 1992
    formula), with a module-level memoisation dictionary keyed by water
    depth.

    Modelling choices.
    - Python floats are idealised as real numbers ([R]); [math.log] is [ln]
      on positive arguments and raises [ValueError] otherwise; float
      division raises [ZeroDivisionError] on a zero divisor.  The concrete
      comparisons proved below hold with margins above 0.05, far from the
      rounding errors of double precision.
    - Water depths are integers ([Z]): the script converts the raster with
      [astype(int)], a cast to 64-bit integers, and calls the solver on the
      literal 99999.
    - [np.vectorize] is modelled with the three things it does around the
      element-wise calls: it refuses an empty array, it calls the function
      once on the first element to choose the type of the output, and it
      converts all answers to that type, which fails on [None] among
      integers.
    - [memoize_dict] is a finite map from water depth to result.
    - The state carries, next to [memoize_dict], a ghost list [log_calls]
      recording every argument handed to [math.log]; the program never reads
      it.  It lets statements speak about the work done by a call. *)

From Stdlib Require Import ZArith Reals Lra Lia List.
From stdpp Require Import base option list gmap.

Local Open Scope Z_scope.

(** ** Exceptions, results and the state monad of the script *)

Inductive exn : Type :=
  | ValueError            (* math.log on a non-positive argument;
                             np.vectorize on an empty array *)
  | ZeroDivisionError     (* float division by zero *)
  | IncorrectRasterStats  (* raised by the script on a negative raster *)
  | TypeError.            (* np.vectorize: None among integer answers *)

Inductive result (A : Type) : Type :=
  | Return (a : A)
  | Raise (e : exn).
Arguments Return {A} a.
Arguments Raise {A} e.

Record state : Type := State {
  memoize_dict : gmap Z Z;   (* the module-level dictionary *)
  log_calls : list R         (* ghost: arguments of math.log, latest first *)
}.

Definition M (A : Type) : Type := state -> result A * state.

Definition ret {A} (a : A) : M A := fun s => (Return a, s).
Definition raise {A} (e : exn) : M A := fun s => (Raise e, s).
Definition bind {A B} (c : M A) (k : A -> M B) : M B :=
  fun s => match c s with
           | (Return a, s') => k a s'
           | (Raise e, s') => (Raise e, s')
           end.
Definition lift {A} (r : result A) : M A := fun s => (r, s).

Notation "'do' x <- c ; k" := (bind c (fun x => k))
  (at level 10, x name, c at level 100, k at level 200, only parsing).
Notation "'exec' c ; k" := (bind c (fun _ => k))
  (at level 10, c at level 100, k at level 200, only parsing).

(** The state at the start of a run of the script: line 61 creates an empty
    dictionary. *)
Definition init_state : state := State ∅ [].

(** ** Arithmetic primitives *)

Definition py_log (x : R) : result R :=
  if Rlt_dec 0 x then Return (ln x) else Raise ValueError.

Definition py_div (x y : R) : result R :=
  if Req_dec_T y 0 then Raise ZeroDivisionError else Return (x / y)%R.

(** [math.log x]: records the argument, then computes. *)
Definition math_log (x : R) : M R :=
  fun s => (py_log x, State (memoize_dict s) (x :: log_calls s)).

(** [memoize_dict[k] = v] *)
Definition memo_store (k v : Z) : M unit :=
  fun s => (Return tt, State (<[k := v]> (memoize_dict s)) (log_calls s)).

(** ** Loops *)

(** What a loop body did: fell through to the next iteration, or executed
    [return v]. *)
Inductive ctl (A : Type) : Type :=
  | Next
  | Ret (v : A).
Arguments Next {A}.
Arguments Ret {A} v.

(** [range(lo, hi)] *)
Definition range (lo hi : Z) : list Z := seqZ lo (hi - lo).

(** [for z in zs: body] where the body may [return]. *)
Fixpoint for_in {A} (zs : list Z) (body : Z -> M (ctl A)) : M (ctl A) :=
  match zs with
  | [] => ret Next
  | z :: zs' =>
      do c <- body z;
      match c with
      | Next => for_in zs' body
      | Ret v => ret (Ret v)
      end
  end.

(** ** The solver: [joides] (lines 27-58) *)

Section Joides.
Variables (water_depth : Z) (base_water_temp geothermal_gradient : R).

Local Open Scope R_scope.

(** Lines 49-53: one iteration of the inner loop. *)
Definition inner_body (z2 : Z) : M (ctl Z) :=
  do a2 <- math_log (10.17 * IZR (water_depth + z2));
  do q <- lift (py_div 10748.1
         ((base_water_temp + ((IZR z2 * geothermal_gradient) / 1000)) + 273.15));
  let b2 := 46.74 - q in
  if Rlt_dec a2 b2 then
    exec memo_store water_depth z2;
    ret (Ret z2)
  else ret Next.

(** Lines 46-58: one iteration of the outer loop. *)
Definition outer_body (z : Z) : M (ctl Z) :=
  do a <- math_log (10.17 * IZR (water_depth + z));
  if Rgt_dec a 9.355001 then
    for_in (range 1 2501) inner_body
  else
    do q <- lift (py_div 8386.8
           ((base_water_temp + (IZR z * geothermal_gradient / 1000)) + 273.15));
    let b := 38.53 - q in
    if Rlt_dec a b then
      exec memo_store water_depth z;
      ret (Ret z)
    else ret Next.

(** Lines 45-58: the search; falling off the end of the function returns
    [None]. *)
Definition joides_search : M (option Z) :=
  do c <- for_in (range 1 2501) outer_body;
  match c with
  | Ret v => ret (Some v)
  | Next => ret None
  end.

(** Lines 42-58. *)
Definition joides : M (option Z) :=
  fun s =>
    match memoize_dict s !! water_depth with
    | Some v => (Return (Some v), s)
    | None => joides_search s
    end.
End Joides.

(** ** The script (lines 63-99): raster in, array and no-data value out *)

(** What the script reads of an [arcpy.Raster]: its cells, row by row
    ([None] is a NoData cell), and the statistics [minimum] and [maximum]
    that ArcGIS keeps with it. *)
Record Raster : Type := {
  cells : list (list (option R));
  minimum : R;
  maximum : R
}.

Definition Rltb (x y : R) : bool := if Rlt_dec x y then true else false.

(** [arcpy.RasterToNumPyArray(in_raster, nodata_to_value=v)] *)
Definition RasterToNumPyArray (in_raster : Raster) (nodata_to_value : R)
  : list (list R) :=
  map (map (fun c => match c with Some x => x | None => nodata_to_value end))
      (cells in_raster).

(** [int(x)] on a float: truncation toward zero. *)
Definition trunc (x : R) : Z :=
  if Rle_dec 0 x then Int_part x else - Int_part (- x).

(** The integers of a NumPy array of type [int]: 64 bits, signed. *)
Definition int_min : Z := - 2 ^ 63.
Definition int_max : Z := 2 ^ 63 - 1.

(** The greatest depth to which every candidate 1..2500 can be added within
    that type.  (The call that chooses the output type receives the depth as
    a NumPy integer, so that [water_depth + z] is machine addition there; up
    to this depth it is the addition of the model.) *)
Definition depth_max : Z := int_max - 2500.

(** The cast of one float to [int]: truncation toward zero when the result
    fits the type.  When it does not, the cast is the C conversion, which on
    x86-64 gives [int_min] whatever the value. *)
Definition to_int (x : R) : Z :=
  let n := trunc x in
  if (int_min <=? n) && (n <=? int_max) then n else int_min.

(** [in_array.astype(int)] *)
Definition astype_int (a : list (list R)) : list (list Z) := map (map to_int) a.

Fixpoint mapM {A B} (f : A -> M B) (l : list A) : M (list B) :=
  match l with
  | [] => ret []
  | x :: l' =>
      do y <- f x;
      do ys <- mapM f l';
      ret (y :: ys)
  end.

(** An answer that is an integer. *)
Definition found (o : option Z) : bool :=
  match o with Some _ => true | None => false end.

(** [asanyarray(outputs, dtype=otypes[0])], the last step of [np.vectorize]:
    the type of the output array is the type of the first answer.  After
    [None] it is [object], and the answers are kept as they are; after an
    integer it is [int], and a [None] among the answers raises
    [TypeError]. *)
Definition converted (first : option Z) (outputs : list (list (option Z)))
  : result (list (list (option Z))) :=
  match first with
  | None => Return outputs
  | Some _ =>
      if forallb (forallb found) outputs then Return outputs
      else Raise TypeError
  end.

(** [np.vectorize(f)(a, t, g)], no [otypes] given.  An empty array raises
    [ValueError].  Otherwise [f] is called on the first element to choose
    the type of the output, then on every element in row-major order (the
    first one again), the two scalars broadcast, and the answers are
    converted to the chosen type. *)
Definition vectorize (f : Z -> R -> R -> M (option Z))
    (a : list (list Z)) (t g : R) : M (list (list (option Z))) :=
  match concat a with
  | [] => raise ValueError
  | x0 :: _ =>
      do first <- f x0 t g;
      do outputs <- mapM (mapM (fun d => f d t g)) a;
      lift (converted first outputs)
  end.

(** Lines 78-93, the part of the [try] block that computes. *)
Definition evaluate (in_raster : Raster) (in_water_temp in_geo_gradient : R)
  : M (list (list (option Z)) * option Z) :=
  if Rltb (minimum in_raster) 0 || Rltb (maximum in_raster) 0 then
    raise IncorrectRasterStats
  else
    let in_array := RasterToNumPyArray in_raster 99999 in
    let in_array := astype_int in_array in
    do out_array <- vectorize joides in_array in_water_temp in_geo_gradient;
    do no_data_value <- joides 99999 in_water_temp in_geo_gradient;
    ret (out_array, no_data_value).

(** One run of the tool: the module is loaded (line 61 binds a fresh
    dictionary), then the [try] block runs. *)
Definition run_tool (in_raster : Raster) (in_water_temp in_geo_gradient : R)
  : result (list (list (option Z)) * option Z) :=
  fst (evaluate in_raster in_water_temp in_geo_gradient init_state).

(** The solver called with the cache cleared. *)
Definition solve (water_depth : Z) (base_water_temp geothermal_gradient : R)
  : result (option Z) :=
  fst (joides water_depth base_water_temp geothermal_gradient init_state).

(** ** Outcomes of the loops as functions of the inputs

    The loop bodies read nothing of the state, so what a loop returns, what
    it stores and which logarithms it takes are functions of the inputs.
    These definitions are proof devices; they are shown equal to the
    monadic code below ([joides_search_eq]). *)

(** What [for_in zs body] returns when [body z] returns [out z]. *)
Fixpoint loop_out {A} (out : Z -> result (ctl A)) (zs : list Z)
  : result (ctl A) :=
  match zs with
  | [] => Return Next
  | z :: zs' =>
      match out z with
      | Return Next => loop_out out zs'
      | r => r
      end
  end.

(** The logarithm arguments of that loop, latest first, when iteration [z]
    takes the logarithms [tr z]. *)
Fixpoint loop_log {A} (out : Z -> result (ctl A)) (tr : Z -> list R)
    (zs : list Z) : list R :=
  match zs with
  | [] => []
  | z :: zs' =>
      match out z with
      | Return Next => loop_log out tr zs' ++ tr z
      | _ => tr z
      end
  end.

Section Outcomes.
Variables (water_depth : Z) (base_water_temp geothermal_gradient : R).

Local Open Scope R_scope.

(** The argument of [math.log] at candidate [z]. *)
Definition log_arg (z : Z) : R := 10.17 * IZR (water_depth + z).

(** The divisor of both curves: the temperature at [z] in kelvin. *)
Definition kelvin (z : Z) : R :=
  (base_water_temp + IZR z * geothermal_gradient / 1000) + 273.15.

(** [if a < c - k / kelvin z: return z]. *)
Definition below_curve (c k : R) (z : Z) (a : R) : result (ctl Z) :=
  match py_div k (kelvin z) with
  | Raise e => Raise e
  | Return q => if Rlt_dec a (c - q) then Return (Ret z) else Return Next
  end.

Definition inner_out (z2 : Z) : result (ctl Z) :=
  match py_log (log_arg z2) with
  | Raise e => Raise e
  | Return a2 => below_curve 46.74 10748.1 z2 a2
  end.

Definition inner_res : result (ctl Z) := loop_out inner_out (range 1 2501).

Definition inner_log : list R :=
  loop_log inner_out (fun z2 => [log_arg z2]) (range 1 2501).

Definition outer_out (z : Z) : result (ctl Z) :=
  match py_log (log_arg z) with
  | Raise e => Raise e
  | Return a =>
      if Rgt_dec a 9.355001 then inner_res
      else below_curve 38.53 8386.8 z a
  end.

Definition outer_log (z : Z) : list R :=
  match py_log (log_arg z) with
  | Return a =>
      if Rgt_dec a 9.355001 then inner_log ++ [log_arg z] else [log_arg z]
  | Raise _ => [log_arg z]
  end.

Definition search_out : result (ctl Z) := loop_out outer_out (range 1 2501).

Definition search_log : list R :=
  loop_log outer_out outer_log (range 1 2501).

(** The dictionary after a loop that ended with [r]. *)
Definition stored (r : result (ctl Z)) (m : gmap Z Z) : gmap Z Z :=
  match r with
  | Return (Ret v) => <[water_depth := v]> m
  | _ => m
  end.

(** What the function returns when the outer loop ended with [r]. *)
Definition returned (r : result (ctl Z)) : result (option Z) :=
  match r with
  | Return (Ret v) => Return (Some v)
  | Return Next => Return None
  | Raise e => Raise e
  end.
End Outcomes.

(** ** Vocabulary of the statements *)

Section Vocabulary.
Variables (water_depth : Z) (base_water_temp geothermal_gradient : R).

Local Open Scope R_scope.

(** The quantity [a] (and [a2]) of the source at candidate [z]. *)
Definition pressure_log (z : Z) : R := ln (10.17 * IZR (water_depth + z)).

(** The two boundary curves [b] and [b2] at candidate [z]. *)
Definition curve1 (z : Z) : R :=
  38.53 - 8386.8 / kelvin base_water_temp geothermal_gradient z.
Definition curve2 (z : Z) : R :=
  46.74 - 10748.1 / kelvin base_water_temp geothermal_gradient z.

(** Candidate [z] is handled by the first branch ([a <= 9.355001]) and its
    test [a < b] is evaluated (the division is defined) with the given
    result. *)
Definition accepted1 (z : Z) : Prop :=
  pressure_log z <= 9.355001 /\
  kelvin base_water_temp geothermal_gradient z <> 0 /\
  pressure_log z < curve1 z.
Definition rejected1 (z : Z) : Prop :=
  pressure_log z <= 9.355001 /\
  kelvin base_water_temp geothermal_gradient z <> 0 /\
  ~ pressure_log z < curve1 z.

(** Candidate [z] sends the search to the second branch. *)
Definition switches (z : Z) : Prop := pressure_log z > 9.355001.

(** The test [a2 < b2] of the inner scan is evaluated at [z2] with the
    given result. *)
Definition accepted2 (z2 : Z) : Prop :=
  kelvin base_water_temp geothermal_gradient z2 <> 0 /\
  pressure_log z2 < curve2 z2.
Definition rejected2 (z2 : Z) : Prop :=
  kelvin base_water_temp geothermal_gradient z2 <> 0 /\
  ~ pressure_log z2 < curve2 z2.
End Vocabulary.

(** The logarithm arguments of a scan of the candidates [lo], ..., [hi - 1]
    in this order, latest first. *)
Definition scanned (water_depth lo hi : Z) : list R :=
  rev (map (log_arg water_depth) (range lo hi)).

(** The state with the dictionary cleared. *)
Definition cleared (s : state) : state := State ∅ (log_calls s).

(** States produced by solver calls from a cleared dictionary: with one
    fixed pair of parameters, and with any parameters. *)
Inductive produced_by (t g : R) : state -> Prop :=
  | produced_by_clear s : memoize_dict s = ∅ -> produced_by t g s
  | produced_by_call s d :
      produced_by t g s -> produced_by t g (snd (joides d t g s)).

Inductive produced : state -> Prop :=
  | produced_clear s : memoize_dict s = ∅ -> produced s
  | produced_call s d t g : produced s -> produced (snd (joides d t g s)).

(** Every entry of the dictionary is what a search with parameters [t], [g]
    finds. *)
Definition memo_ok (t g : R) (m : gmap Z Z) : Prop :=
  forall d v, m !! d = Some v -> solve d t g = Return (Some v).

(** ** The simplified solver of the equivalence statement

    As [joides], except that the first candidate with [a > 9.355001] runs
    the inner scan once and returns its outcome, found or not, without
    going on with the outer loop. *)

Section Simplified.
Variables (water_depth : Z) (base_water_temp geothermal_gradient : R).

Local Open Scope R_scope.

Definition outer_body_simplified (z : Z) : M (ctl (option Z)) :=
  do a <- math_log (10.17 * IZR (water_depth + z));
  if Rgt_dec a 9.355001 then
    do c <- for_in (range 1 2501)
              (inner_body water_depth base_water_temp geothermal_gradient);
    match c with
    | Ret z2 => ret (Ret (Some z2))
    | Next => ret (Ret None)
    end
  else
    do q <- lift (py_div 8386.8
           ((base_water_temp + (IZR z * geothermal_gradient / 1000)) + 273.15));
    let b := 38.53 - q in
    if Rlt_dec a b then
      exec memo_store water_depth z;
      ret (Ret (Some z))
    else ret Next.

Definition joides_simplified : M (option Z) :=
  fun s =>
    match memoize_dict s !! water_depth with
    | Some v => (Return (Some v), s)
    | None =>
        (do c <- for_in (range 1 2501) outer_body_simplified;
         match c with
         | Ret v => ret v
         | Next => ret None
         end) s
    end.

(** Its outer loop body as a function of the inputs. *)
Definition outer_out_simplified (z : Z) : result (ctl (option Z)) :=
  match outer_out water_depth base_water_temp geothermal_gradient z with
  | Return (Ret v) => Return (Ret (Some v))
  | Return Next =>
      match py_log (log_arg water_depth z) with
      | Return a => if Rgt_dec a 9.355001 then Return (Ret None) else Return Next
      | Raise e => Raise e
      end
  | Raise e => Raise e
  end.

Definition outer_log_simplified (z : Z) : list R :=
  outer_log water_depth base_water_temp geothermal_gradient z.

Definition stored_simplified (r : result (ctl (option Z))) (m : gmap Z Z)
  : gmap Z Z :=
  match r with
  | Return (Ret (Some v)) => <[water_depth := v]> m
  | _ => m
  end.
End Simplified.

(** ** Vocabulary for rasters *)

(** The statistics of a raster bound its data cells. *)
Definition stats_ok (r : Raster) : Prop :=
  forall row x, row ∈ cells r -> Some x ∈ row ->
    (minimum r <= x <= maximum r)%R.

(** The depth the solver is called with for a cell. *)
Definition cell_depth (c : option R) : Z :=
  to_int (match c with Some x => x | None => 99999%R end).

Definition raster_stale : Raster :=
  {| cells := [[Some (-5)%R]]; minimum := 0%R; maximum := 0%R |}.
Definition raster_0_2000 : Raster :=
  {| cells := [[Some 0%R; Some 2000%R]]; minimum := 0%R; maximum := 2000%R |}.
Definition raster_1000_nodata : Raster :=
  {| cells := [[Some 1000%R; None]]; minimum := 1000%R; maximum := 1000%R |}.

(** Typical parameters: a bottom-water temperature between 0 and 30 degrees
    Celsius and a geothermal gradient between 15 and 100 degrees per
    kilometre. *)
Definition typical (t g : R) : Prop := (0 <= t <= 30 /\ 15 <= g <= 100)%R.

(** The first exception of a list of results, or all their values. *)
Fixpoint collect {A} (rs : list (result A)) : result (list A) :=
  match rs with
  | [] => Return []
  | Return a :: rs' =>
      match collect rs' with
      | Return l => Return (a :: l)
      | Raise e => Raise e
      end
  | Raise e :: _ => Raise e
  end.

(** The answers of the solver for the rows of a raster. *)
Definition answers (t g : R) (rows : list (list (option R)))
  : result (list (list (option Z))) :=
  collect (map (fun row => collect (map (fun c => solve (cell_depth c) t g) row))
               rows).

(** What a run gives when every call of the solver gives what a search with
    the dictionary cleared gives: the guard, the refusal of an empty array,
    the call on the first cell, the answers for the cells, their conversion
    to the type of the first answer, and the answer for 99999. *)
Definition run_result (t g : R) (r : Raster)
  : result (list (list (option Z)) * option Z) :=
  if Rltb (minimum r) 0 || Rltb (maximum r) 0 then Raise IncorrectRasterStats
  else
    match concat (cells r) with
    | [] => Raise ValueError
    | c0 :: _ =>
        match solve (cell_depth c0) t g with
        | Raise e => Raise e
        | Return first =>
            match answers t g (cells r) with
            | Raise e => Raise e
            | Return outputs =>
                match converted first outputs with
                | Raise e => Raise e
                | Return out =>
                    match solve 99999 t g with
                    | Raise e => Raise e
                    | Return nd => Return (out, nd)
                    end
                end
            end
        end
    end.

(** What a computation does to a dictionary that holds search results for
    [t], [g], when [D] are the depths it calls the solver with: the
    dictionary still holds search results only, it keeps its entries, new
    keys are depths of [D], and if the computation returns, every depth of
    [D] that has a solution has its entry. *)
Definition fills (t g : R) (D : Z -> Prop) {A} (c : M A) : Prop :=
  forall s, memo_ok t g (memoize_dict s) ->
    memo_ok t g (memoize_dict (snd (c s))) /\
    (forall d v, memoize_dict s !! d = Some v ->
                 memoize_dict (snd (c s)) !! d = Some v) /\
    (forall d v, memoize_dict (snd (c s)) !! d = Some v ->
                 memoize_dict s !! d = Some v \/ D d) /\
    ((exists a, fst (c s) = Return a) ->
     forall d v, D d -> solve d t g = Return (Some v) ->
                 memoize_dict (snd (c s)) !! d = Some v).

(** [k] squarings of a fixed-point number [a / S], each rounded down; a
    device for sharp bounds on the logarithm. *)
Fixpoint sq_down (S : Z) (k : nat) (a : Z) : Z :=
  match k with
  | O => a
  | Datatypes.S k' => sq_down S k' (a * a / S)
  end.

(** ** Generic facts about loops *)

(* The scans have 2500 candidates: keep them folded during simplification. *)
Arguments range : simpl never.
Arguments inner_res : simpl never.
Arguments inner_log : simpl never.
Arguments search_out : simpl never.
Arguments search_log : simpl never.

Section LoopFacts.
Context {A : Type}.
Implicit Types (out : Z -> result (ctl A)) (zs : list Z).

Lemma for_in_spec (body : Z -> M (ctl A)) out
    (upd : result (ctl A) -> gmap Z Z -> gmap Z Z) (tr : Z -> list R) :
  (forall m, upd (Return Next) m = m) ->
  (forall z s, body z s =
     (out z, State (upd (out z) (memoize_dict s)) (tr z ++ log_calls s))) ->
  forall zs s, for_in zs body s =
    (loop_out out zs,
     State (upd (loop_out out zs) (memoize_dict s))
           (loop_log out tr zs ++ log_calls s)).
Proof.
  intros Hupd Hbody zs. induction zs as [|z zs IH]; intros s.
  - cbn. unfold ret. rewrite Hupd. by destruct s.
  - cbn. unfold bind. rewrite Hbody.
    destruct (out z) as [[|v]|e] eqn:E; try reflexivity.
    rewrite IH. cbn. rewrite Hupd. by rewrite <- app_assoc.
Qed.

Lemma loop_out_app out xs ys :
  loop_out out (xs ++ ys) =
  match loop_out out xs with
  | Return Next => loop_out out ys
  | r => r
  end.
Proof.
  induction xs as [|x xs IH]; [done|]. cbn.
  by destruct (out x) as [[|v]|e].
Qed.

Lemma loop_out_all_next out zs :
  (forall z, z ∈ zs -> out z = Return Next) -> loop_out out zs = Return Next.
Proof.
  induction zs as [|z zs IH]; intros H; [done|]. cbn.
  rewrite (H z) by apply list_elem_of_here.
  apply IH. intros z' Hz'. apply H. by apply list_elem_of_further.
Qed.

Lemma loop_out_next_inv out zs :
  loop_out out zs = Return Next -> forall z, z ∈ zs -> out z = Return Next.
Proof.
  induction zs as [|z zs IH]; intros H z' Hz'.
  - by apply elem_of_nil in Hz'.
  - cbn in H. apply elem_of_cons in Hz' as [->|Hz'].
    + by destruct (out z) as [[|v]|e].
    + apply IH; [|done]. by destruct (out z) as [[|v]|e].
Qed.

Lemma loop_out_inv out zs r :
  loop_out out zs = r -> r <> Return Next ->
  exists pre z post, zs = pre ++ z :: post /\
    (forall z', z' ∈ pre -> out z' = Return Next) /\ out z = r.
Proof.
  induction zs as [|z zs IH]; intros H Hr.
  - cbn in H. congruence.
  - cbn in H. destruct (out z) as [[|v]|e] eqn:E.
    + destruct (IH H Hr) as (pre & z0 & post & -> & Hpre & Hz0).
      exists (z :: pre), z0, post. split; [done|]. split; [|done].
      intros z' Hz'. apply elem_of_cons in Hz' as [->|Hz']; auto.
    + exists [], z, zs. split; [done|]. split; [|congruence].
      intros z' Hz'. by apply elem_of_nil in Hz'.
    + exists [], z, zs. split; [done|]. split; [|congruence].
      intros z' Hz'. by apply elem_of_nil in Hz'.
Qed.

Lemma loop_log_length out tr zs (k : nat) :
  (forall z, z ∈ zs -> (length (tr z) <= k)%nat) ->
  (length (loop_log out tr zs) <= k * length zs)%nat.
Proof.
  induction zs as [|z zs IH]; intros H; cbn; [lia|].
  assert (length (tr z) <= k)%nat by (apply H, list_elem_of_here).
  assert (length (loop_log out tr zs) <= k * length zs)%nat
    by (apply IH; intros; apply H; by apply list_elem_of_further).
  destruct (out z) as [[|v]|e]; rewrite ?length_app; nia.
Qed.

Lemma loop_log_Forall (P : R -> Prop) out tr zs :
  (forall z, z ∈ zs -> Forall P (tr z)) -> Forall P (loop_log out tr zs).
Proof.
  induction zs as [|z zs IH]; intros H; cbn; [constructor|].
  assert (Forall P (tr z)) by (apply H, list_elem_of_here).
  assert (Forall P (loop_log out tr zs))
    by (apply IH; intros; apply H; by apply list_elem_of_further).
  destruct (out z) as [[|v]|e]; try done. by apply Forall_app.
Qed.

Lemma loop_log_app out tr xs ys :
  loop_log out tr (xs ++ ys) =
  match loop_out out xs with
  | Return Next => loop_log out tr ys ++ loop_log out tr xs
  | _ => loop_log out tr xs
  end.
Proof.
  induction xs as [|x xs IH]; cbn; [by rewrite app_nil_r|].
  destruct (out x) as [[|v]|e]; try done. rewrite IH.
  destruct (loop_out out xs) as [[|v]|e]; try done. by rewrite app_assoc.
Qed.

Lemma loop_log_all_next out tr (f : Z -> R) zs :
  (forall z, z ∈ zs -> out z = Return Next /\ tr z = [f z]) ->
  loop_log out tr zs = rev (map f zs).
Proof.
  induction zs as [|z zs IH]; intros H; [done|]. cbn.
  destruct (H z) as [-> ->]; [apply list_elem_of_here|].
  rewrite IH; [done|]. intros z' Hz'. apply H. by apply list_elem_of_further.
Qed.

(** The same over [range lo hi]. *)

Lemma elem_of_range lo hi z : z ∈ range lo hi <-> lo <= z < hi.
Proof. unfold range. rewrite elem_of_seqZ. lia. Qed.

Lemma length_range lo hi : length (range lo hi) = Z.to_nat (hi - lo).
Proof. unfold range. apply length_seqZ. Qed.

Lemma range_split lo hi z :
  lo <= z < hi -> range lo hi = range lo z ++ z :: range (z + 1) hi.
Proof.
  intros H. unfold range.
  replace (hi - lo) with ((z - lo) + (hi - z)) by lia.
  rewrite seqZ_app by lia. f_equal.
  replace (lo + (z - lo)) with z by lia.
  replace (hi - z) with (Z.succ (hi - (z + 1))) by lia.
  rewrite seqZ_cons by lia. f_equal. f_equal; lia.
Qed.

Lemma range_all_next out lo hi :
  (forall z, lo <= z < hi -> out z = Return Next) ->
  loop_out out (range lo hi) = Return Next.
Proof.
  intros H. apply loop_out_all_next. intros z Hz. by apply H, elem_of_range.
Qed.

Lemma range_next_inv out lo hi :
  loop_out out (range lo hi) = Return Next ->
  forall z, lo <= z < hi -> out z = Return Next.
Proof.
  intros H z Hz. eapply loop_out_next_inv; [done|]. by apply elem_of_range.
Qed.

Lemma range_first out lo hi z :
  lo <= z < hi ->
  (forall z', lo <= z' < z -> out z' = Return Next) ->
  out z <> Return Next ->
  loop_out out (range lo hi) = out z.
Proof.
  intros Hz Hbefore Hhit. rewrite (range_split lo hi z) by done.
  rewrite loop_out_app, range_all_next by done. cbn.
  by destruct (out z) as [[|v]|e].
Qed.

Lemma range_inv out lo hi r :
  loop_out out (range lo hi) = r -> r <> Return Next ->
  exists z, lo <= z < hi /\
    (forall z', lo <= z' < z -> out z' = Return Next) /\ out z = r.
Proof.
  intros H Hr. destruct (loop_out_inv _ _ _ H Hr) as (pre & z & post & E & Hpre & Hz).
  assert (Hin : z ∈ range lo hi) by (rewrite E; set_solver).
  apply elem_of_range in Hin. exists z. split; [done|]. split; [|done].
  intros z' Hz'. apply Hpre.
  rewrite (range_split lo hi z) in E by done.
  assert (Hlen : length (range lo z) = length pre \/ length (range lo z) <> length pre) by lia.
  destruct Hlen as [Hlen|Hlen].
  - apply app_inj_1 in E as [<- _]; [|done]. apply elem_of_range. lia.
  - exfalso.
    assert (Hnd : NoDup (range lo z ++ z :: range (z + 1) hi)).
    { rewrite <- range_split by done. apply NoDup_seqZ. }
    rewrite E in Hnd.
    (* both splits isolate the same element of a duplicate-free list *)
    assert (Hz1 : (range lo z ++ z :: range (z + 1) hi) !! length (range lo z) = Some z).
    { by rewrite list_lookup_middle. }
    assert (Hz2 : (pre ++ z :: post) !! length pre = Some z).
    { by rewrite list_lookup_middle. }
    rewrite E in Hz1.
    pose proof (NoDup_lookup _ _ _ _ Hnd Hz1 Hz2). lia.
Qed.

Lemma range_snoc lo z : lo <= z -> range lo (z + 1) = range lo z ++ [z].
Proof.
  intros H. rewrite (range_split lo (z + 1) z) by lia. f_equal. f_equal.
  unfold range. by rewrite Z.sub_diag.
Qed.

Lemma range_first_log out tr (f : Z -> R) lo hi z :
  lo <= z < hi ->
  (forall z', lo <= z' < z -> out z' = Return Next /\ tr z' = [f z']) ->
  out z <> Return Next ->
  loop_log out tr (range lo hi) = tr z ++ rev (map f (range lo z)).
Proof.
  intros Hz Hbefore Hhit. rewrite (range_split lo hi z) by done.
  rewrite loop_log_app, range_all_next by (intros; by apply Hbefore).
  rewrite (loop_log_all_next out tr f (range lo z))
    by (intros z' Hz'%elem_of_range; by apply Hbefore).
  cbn. by destruct (out z) as [[|v]|e].
Qed.

(** A loop over a range has ended at the latest where its body does not
    fall through. *)
Lemma range_exits_by out lo hi k :
  lo <= k < hi -> out k <> Return Next ->
  exists z, lo <= z <= k /\
    (forall z', lo <= z' < z -> out z' = Return Next) /\
    out z <> Return Next /\ loop_out out (range lo hi) = out z.
Proof.
  intros Hk Hhit.
  destruct (loop_out out (range lo hi)) as [[|v]|e] eqn:E.
  - exfalso. apply Hhit. by eapply range_next_inv.
  - destruct (range_inv _ _ _ _ E) as (z & Hz & Hpre & Hout); [done|].
    exists z. repeat split; try lia; try done; try congruence.
    destruct (Z_le_gt_dec z k); [lia|]. exfalso. apply Hhit, Hpre. lia.
  - destruct (range_inv _ _ _ _ E) as (z & Hz & Hpre & Hout); [done|].
    exists z. repeat split; try lia; try done; try congruence.
    destruct (Z_le_gt_dec z k); [lia|]. exfalso. apply Hhit, Hpre. lia.
Qed.
End LoopFacts.

(** ** The monadic code computes the outcome functions *)

Section SearchFacts.
Variables (d : Z) (t g : R).

Lemma stored_next m : stored d (Return Next) m = m.
Proof. done. Qed.

Lemma inner_body_eq z2 s :
  inner_body d t g z2 s =
    (inner_out d t g z2,
     State (stored d (inner_out d t g z2) (memoize_dict s))
           ([log_arg d z2] ++ log_calls s)).
Proof.
  unfold inner_body, inner_out, below_curve, bind, math_log, lift,
    memo_store, ret, kelvin, log_arg.
  destruct (py_log _) as [a2|e]; [|done].
  destruct (py_div _ _) as [q|e]; [|done].
  by destruct (Rlt_dec _ _).
Qed.

Lemma inner_loop_eq s :
  for_in (range 1 2501) (inner_body d t g) s =
    (inner_res d t g,
     State (stored d (inner_res d t g) (memoize_dict s))
           (inner_log d t g ++ log_calls s)).
Proof.
  apply (for_in_spec (inner_body d t g) (inner_out d t g) (stored d)
           (fun z2 => [log_arg d z2])).
  - apply stored_next.
  - apply inner_body_eq.
Qed.

Lemma outer_body_eq z s :
  outer_body d t g z s =
    (outer_out d t g z,
     State (stored d (outer_out d t g z) (memoize_dict s))
           (outer_log d t g z ++ log_calls s)).
Proof.
  unfold outer_body, outer_out, outer_log, below_curve,
    bind, math_log, lift, memo_store, ret, kelvin.
  fold (log_arg d z).
  destruct (py_log _) as [a|e]; [|done].
  destruct (Rgt_dec _ _).
  - rewrite inner_loop_eq. cbn. by rewrite <- app_assoc.
  - destruct (py_div _ _) as [q|e]; [|done].
    by destruct (Rlt_dec _ _).
Qed.

Lemma joides_search_eq s :
  joides_search d t g s =
    (returned (search_out d t g),
     State (stored d (search_out d t g) (memoize_dict s))
           (search_log d t g ++ log_calls s)).
Proof.
  unfold joides_search, bind.
  rewrite (for_in_spec (outer_body d t g) (outer_out d t g) (stored d)
             (outer_log d t g)
             stored_next outer_body_eq).
  fold (search_out d t g). fold (search_log d t g).
  by destruct (search_out d t g) as [[|v]|e].
Qed.

Lemma joides_eq s :
  joides d t g s =
    match memoize_dict s !! d with
    | Some v => (Return (Some v), s)
    | None =>
        (returned (search_out d t g),
         State (stored d (search_out d t g) (memoize_dict s))
               (search_log d t g ++ log_calls s))
    end.
Proof.
  unfold joides. destruct (memoize_dict s !! d); [done|].
  apply joides_search_eq.
Qed.

Lemma solve_eq :
  solve d t g = returned (search_out d t g).
Proof. unfold solve. by rewrite joides_eq. Qed.

(** Only candidates are returned. *)

Lemma below_curve_ret c k z a v :
  below_curve t g c k z a = Return (Ret v) ->
  v = z.
Proof.
  unfold below_curve. destruct (py_div _ _); [|done].
  destruct (Rlt_dec _ _); congruence.
Qed.

Lemma inner_out_ret z2 v : inner_out d t g z2 = Return (Ret v) -> v = z2.
Proof.
  unfold inner_out. destruct (py_log _); [|done].
  apply below_curve_ret.
Qed.

Lemma inner_res_ret v :
  inner_res d t g = Return (Ret v) ->
  1 <= v <= 2500 /\ inner_out d t g v = Return (Ret v) /\
  forall z2, 1 <= z2 < v -> inner_out d t g z2 = Return Next.
Proof.
  intros H. apply range_inv in H as (z & Hz & Hpre & Hout); [|done].
  pose proof (inner_out_ret _ _ Hout) as ->. split; [lia|]. split; done.
Qed.

Lemma outer_out_ret z v :
  1 <= z <= 2500 -> outer_out d t g z = Return (Ret v) -> 1 <= v <= 2500.
Proof.
  intros Hz. unfold outer_out. destruct (py_log _); [|done].
  destruct (Rgt_dec _ _).
  - intros H. by apply inner_res_ret in H as [? _].
  - intros H. apply below_curve_ret in H. lia.
Qed.

Lemma search_out_ret v : search_out d t g = Return (Ret v) -> 1 <= v <= 2500.
Proof.
  intros H. apply range_inv in H as (z & Hz & _ & Hout); [|done].
  eapply outer_out_ret; [|done]. lia.
Qed.

(** The logarithms taken by a search. *)

Lemma inner_log_length : (length (inner_log d t g) <= 2500)%nat.
Proof.
  unfold inner_log.
  etrans; [apply (loop_log_length _ _ _ 1%nat); intros; cbn; lia|].
  rewrite length_range. lia.
Qed.

Lemma outer_log_length z : (length (outer_log d t g z) <= 2501)%nat.
Proof.
  unfold outer_log. pose proof inner_log_length.
  destruct (py_log _); [|cbn; lia].
  destruct (Rgt_dec _ _); rewrite ?length_app; cbn; lia.
Qed.

Lemma search_log_length : (length (search_log d t g) <= 2501 * 2500)%nat.
Proof.
  unfold search_log.
  etrans; [apply (loop_log_length _ _ _ 2501%nat); intros; apply outer_log_length|].
  rewrite length_range. lia.
Qed.

Lemma log_arg_pos z : 0 <= d -> 1 <= z -> (0 < log_arg d z)%R.
Proof.
  intros Hd Hz. unfold log_arg.
  assert (1 <= IZR (d + z))%R by (apply IZR_le; lia). lra.
Qed.

Lemma inner_log_pos :
  0 <= d -> Forall (fun x => (0 < x)%R) (inner_log d t g).
Proof.
  intros Hd. apply loop_log_Forall. intros z Hz%elem_of_range.
  repeat constructor. apply log_arg_pos; lia.
Qed.

Lemma search_log_pos :
  0 <= d -> Forall (fun x => (0 < x)%R) (search_log d t g).
Proof.
  intros Hd. apply loop_log_Forall. intros z Hz%elem_of_range.
  unfold outer_log.
  assert (0 < log_arg d z)%R by (apply log_arg_pos; lia).
  pose proof (inner_log_pos Hd).
  destruct (py_log _); [|by repeat constructor].
  destruct (Rgt_dec _ _); [|by repeat constructor].
  apply Forall_app. split; [done|]. by repeat constructor.
Qed.

(** Where the logarithm is defined, and what raises. *)

Lemma py_log_pos x : (0 < x)%R -> py_log x = Return (ln x).
Proof. intros H. unfold py_log. by destruct (Rlt_dec 0 x). Qed.

Lemma py_div_nonzero x y : y <> 0%R -> py_div x y = Return (x / y)%R.
Proof. intros H. unfold py_div. by destruct (Req_dec_T y 0). Qed.

Lemma below_curve_no_value_error c k z a :
  below_curve t g c k z a <> Raise ValueError.
Proof.
  unfold below_curve, py_div. destruct (Req_dec_T _ _); [done|].
  by destruct (Rlt_dec _ _).
Qed.

Lemma inner_out_no_value_error z2 :
  0 <= d -> 1 <= z2 -> inner_out d t g z2 <> Raise ValueError.
Proof.
  intros Hd Hz. unfold inner_out.
  rewrite py_log_pos by (by apply log_arg_pos).
  apply below_curve_no_value_error.
Qed.

Lemma inner_res_no_value_error :
  0 <= d -> (inner_res d t g) <> Raise ValueError.
Proof.
  intros Hd H. apply range_inv in H as (z & Hz & _ & Hout); [|done].
  revert Hout. apply inner_out_no_value_error; [done|lia].
Qed.

Lemma search_out_no_value_error :
  0 <= d -> (search_out d t g) <> Raise ValueError.
Proof.
  intros Hd H. apply range_inv in H as (z & Hz & _ & Hout); [|done].
  revert Hout. unfold outer_out.
  rewrite py_log_pos by (apply log_arg_pos; lia).
  destruct (Rgt_dec _ _).
  - by apply inner_res_no_value_error.
  - apply below_curve_no_value_error.
Qed.
End SearchFacts.

(** ** The dictionary: what a call stores, and when it can be trusted *)

Lemma joides_cleared d t g s : fst (joides d t g (cleared s)) = solve d t g.
Proof. rewrite joides_eq, solve_eq. cbn. by rewrite lookup_empty. Qed.

Lemma joides_memo_ok d t g s :
  memo_ok t g (memoize_dict s) ->
  fst (joides d t g s) = solve d t g /\
  memo_ok t g (memoize_dict (snd (joides d t g s))).
Proof.
  intros Hok. rewrite joides_eq.
  destruct (memoize_dict s !! d) as [v|] eqn:E; cbn.
  - split; [|done]. symmetry. by apply Hok.
  - split; [by rewrite solve_eq|].
    destruct (search_out d t g) as [[|v]|e] eqn:Es; cbn; try done.
    intros d' v' Hd'. destruct (decide (d' = d)) as [->|Hne].
    + rewrite lookup_insert_eq in Hd'. injection Hd' as <-.
      by rewrite solve_eq, Es.
    + rewrite lookup_insert_ne in Hd' by done. by apply Hok.
Qed.

Lemma joides_init d t g :
  joides d t g init_state =
    (returned (search_out d t g),
     State (stored d (search_out d t g) ∅) (search_log d t g ++ [])).
Proof.
  rewrite joides_eq. change (memoize_dict init_state) with (∅ : gmap Z Z).
  by rewrite lookup_empty.
Qed.

Lemma memo_ok_empty t g : memo_ok t g ∅.
Proof. intros d v H. by rewrite lookup_empty in H. Qed.

Lemma produced_by_memo_ok t g s :
  produced_by t g s -> memo_ok t g (memoize_dict s).
Proof.
  induction 1 as [s E|s d _ IH].
  - rewrite E. apply memo_ok_empty.
  - by apply joides_memo_ok.
Qed.

(** C1, as amended.  A dictionary filled by earlier calls of the solver with
    the same bottom-water temperature and geothermal gradient does not change
    what any later call with those parameters returns: the call returns what
    it returns with the dictionary cleared.  (The dictionary is keyed by water
    depth alone, so this does not extend to earlier calls with other
    parameters.) *)
Theorem memo_transparent_same_parameters d t g s :
  produced_by t g s ->
  fst (joides d t g s) = fst (joides d t g (cleared s)).
Proof.
  intros H. rewrite joides_cleared.
  by apply joides_memo_ok, produced_by_memo_ok.
Qed.

(** C9.  A call changes the dictionary only by inserting, for its own water
    depth, the candidate it found and returns: when it returns [None] the
    dictionary is as before the call, and whenever the dictionary differs
    after the call, the call was a miss that returned some [v] in 1..2500 and
    the dictionary is the old one with [water_depth] mapped to [v]. *)
Theorem joides_caches_only_found d t g s :
  (fst (joides d t g s) = Return None ->
   memoize_dict (snd (joides d t g s)) = memoize_dict s) /\
  (memoize_dict (snd (joides d t g s)) <> memoize_dict s ->
   exists v, 1 <= v <= 2500 /\
     fst (joides d t g s) = Return (Some v) /\
     memoize_dict s !! d = None /\
     memoize_dict (snd (joides d t g s)) = <[d := v]> (memoize_dict s)).
Proof.
  rewrite joides_eq. destruct (memoize_dict s !! d) as [v|] eqn:E; cbn.
  - split; [done|]. intros H. by destruct H.
  - destruct (search_out d t g) as [[|v]|e] eqn:Es; cbn.
    + split; [done|]. intros H. by destruct H.
    + split; [done|]. intros _. exists v.
      split; [by eapply search_out_ret|]. done.
    + split; [done|]. intros H. by destruct H.
Qed.

(** C7.  With a non-negative water depth every argument a call hands to
    [math.log] is strictly positive, and the call does not end in the
    logarithm's [ValueError]. *)
Theorem log_arguments_positive d t g s :
  0 <= d ->
  (exists new, log_calls (snd (joides d t g s)) = new ++ log_calls s /\
     Forall (fun x => (0 < x)%R) new) /\
  fst (joides d t g s) <> Raise ValueError.
Proof.
  intros Hd. rewrite joides_eq.
  destruct (memoize_dict s !! d) as [v|] eqn:E; cbn.
  - split; [|done]. exists []. split; [done|constructor].
  - split.
    + exists (search_log d t g). split; [done|]. by apply search_log_pos.
    + pose proof (search_out_no_value_error d t g Hd).
      by destruct (search_out d t g) as [[|v]|[]].
Qed.

(** Depth 0 at 4 degrees and 30 degrees per km. *)
Lemma log_arguments_positive_witness :
  0 <= 0 /\
  (exists new,
     log_calls (snd (joides 0 4 30 init_state)) = new ++ log_calls init_state /\
     Forall (fun x => (0 < x)%R) new) /\
  fst (joides 0 4 30 init_state) <> Raise ValueError.
Proof.
  split; [lia|]. apply (log_arguments_positive 0 4 30 init_state). lia.
Defined.

(** ** The outcome of one candidate, in the vocabulary of the statements *)

Section Candidates.
Variables (d : Z) (t g : R).

Lemma below_curve1_eq z a :
  kelvin t g z <> 0%R ->
  below_curve t g 38.53 8386.8 z a =
    if Rlt_dec a (curve1 t g z) then Return (Ret z) else Return Next.
Proof. intros H. unfold below_curve, curve1. by rewrite py_div_nonzero. Qed.

Lemma below_curve2_eq z a :
  kelvin t g z <> 0%R ->
  below_curve t g 46.74 10748.1 z a =
    if Rlt_dec a (curve2 t g z) then Return (Ret z) else Return Next.
Proof. intros H. unfold below_curve, curve2. by rewrite py_div_nonzero. Qed.

Lemma inner_out_accepted z2 :
  (0 < log_arg d z2)%R -> accepted2 d t g z2 ->
  inner_out d t g z2 = Return (Ret z2).
Proof.
  intros Hpos [Hk Hlt]. unfold inner_out.
  rewrite py_log_pos, below_curve2_eq by done.
  by destruct (Rlt_dec _ _).
Qed.

Lemma inner_out_rejected z2 :
  (0 < log_arg d z2)%R -> rejected2 d t g z2 ->
  inner_out d t g z2 = Return Next.
Proof.
  intros Hpos [Hk Hlt]. unfold inner_out.
  rewrite py_log_pos, below_curve2_eq by done.
  by destruct (Rlt_dec _ _).
Qed.

Lemma outer_out_accepted z :
  (0 < log_arg d z)%R -> accepted1 d t g z ->
  outer_out d t g z = Return (Ret z).
Proof.
  intros Hpos (Hle & Hk & Hlt). unfold outer_out. rewrite py_log_pos by done.
  unfold pressure_log in *. fold (log_arg d z) in *.
  destruct (Rgt_dec _ _); [lra|].
  rewrite below_curve1_eq by done. by destruct (Rlt_dec _ _).
Qed.

Lemma outer_out_rejected z :
  (0 < log_arg d z)%R -> rejected1 d t g z ->
  outer_out d t g z = Return Next.
Proof.
  intros Hpos (Hle & Hk & Hlt). unfold outer_out. rewrite py_log_pos by done.
  unfold pressure_log in *. fold (log_arg d z) in *.
  destruct (Rgt_dec _ _); [lra|].
  rewrite below_curve1_eq by done. by destruct (Rlt_dec _ _).
Qed.

Lemma outer_out_switches z :
  (0 < log_arg d z)%R -> switches d z ->
  outer_out d t g z = inner_res d t g.
Proof.
  intros Hpos Hgt. unfold outer_out. rewrite py_log_pos by done.
  unfold switches, pressure_log in Hgt. fold (log_arg d z) in Hgt.
  by destruct (Rgt_dec _ _).
Qed.

(** What made a candidate of the inner scan return or fall through. *)

Lemma py_log_return x a : py_log x = Return a -> (0 < x)%R /\ a = ln x.
Proof. unfold py_log. destruct (Rlt_dec 0 x); [|done]. by intros [= <-]. Qed.

Lemma below_curve_return c k z a r :
  below_curve t g c k z a = Return r ->
  kelvin t g z <> 0%R /\
  if Rlt_dec a (c - k / kelvin t g z) then r = Ret z else r = Next.
Proof.
  unfold below_curve, py_div. destruct (Req_dec_T _ _); [done|].
  split; [done|]. destruct (Rlt_dec _ _); congruence.
Qed.

Lemma inner_out_ret_inv z2 v :
  inner_out d t g z2 = Return (Ret v) ->
  v = z2 /\ (0 < log_arg d z2)%R /\ accepted2 d t g z2.
Proof.
  unfold inner_out. destruct (py_log _) as [a|] eqn:El; [|done].
  apply py_log_return in El as [Hpos ->]. intros H.
  apply below_curve_return in H as [Hk H].
  destruct (Rlt_dec _ _); [|done]. injection H as <-. done.
Qed.

Lemma inner_out_next_inv z2 :
  inner_out d t g z2 = Return Next ->
  (0 < log_arg d z2)%R /\ rejected2 d t g z2.
Proof.
  unfold inner_out. destruct (py_log _) as [a|] eqn:El; [|done].
  apply py_log_return in El as [Hpos ->]. intros H.
  apply below_curve_return in H as [Hk H].
  by destruct (Rlt_dec _ _).
Qed.

(** A candidate returned by the search passed one of the two tests. *)
Lemma search_out_ret_inv v :
  search_out d t g = Return (Ret v) ->
  1 <= v <= 2500 /\ (0 < log_arg d v)%R /\
  (accepted1 d t g v \/ accepted2 d t g v).
Proof.
  intros H. split; [by eapply search_out_ret|].
  apply range_inv in H as (z & Hz & _ & Hout); [|done].
  revert Hout. unfold outer_out.
  destruct (py_log _) as [a|] eqn:El; [|done].
  apply py_log_return in El as [Hpos ->].
  destruct (Rgt_dec _ _) as [Hgt|Hle].
  - intros Hin. apply inner_res_ret in Hin as (_ & Hin & _).
    apply inner_out_ret_inv in Hin as (_ & ? & ?). auto.
  - intros Hb. apply below_curve_return in Hb as [Hk Hb].
    destruct (Rlt_dec _ _); [|done]. injection Hb as <-.
    split; [done|]. left. unfold accepted1, pressure_log, curve1.
    fold (log_arg d v). split; [lra|done].
Qed.

(** The logarithm grows along the scan. *)
Lemma pressure_log_mono z z' :
  (0 < log_arg d z)%R -> z <= z' -> (pressure_log d z <= pressure_log d z')%R.
Proof.
  intros Hpos Hle. unfold pressure_log. fold (log_arg d z) (log_arg d z').
  assert (Hle' : (log_arg d z <= log_arg d z')%R).
  { unfold log_arg.
    assert (IZR (d + z) <= IZR (d + z'))%R by (apply IZR_le; lia). lra. }
  destruct Hle' as [Hlt|Heq].
  - left. by apply ln_increasing.
  - right. by rewrite Heq.
Qed.
End Candidates.

(** Without a zero divisor a search from a non-negative depth returns. *)

Lemma inner_res_no_raise d t g e :
  0 <= d -> (forall z, 1 <= z <= 2500 -> kelvin t g z <> 0%R) ->
  inner_res d t g <> Raise e.
Proof.
  intros Hd Hk H. apply range_inv in H as (z2 & Hz2 & _ & Hout); [|done].
  revert Hout. unfold inner_out.
  rewrite py_log_pos by (apply log_arg_pos; lia).
  rewrite below_curve2_eq by (apply Hk; lia). by destruct (Rlt_dec _ _).
Qed.

Lemma search_out_no_raise d t g e :
  0 <= d -> (forall z, 1 <= z <= 2500 -> kelvin t g z <> 0%R) ->
  search_out d t g <> Raise e.
Proof.
  intros Hd Hk H. apply range_inv in H as (z & Hz & _ & Hout); [|done].
  revert Hout. unfold outer_out.
  rewrite py_log_pos by (apply log_arg_pos; lia).
  destruct (Rgt_dec _ _).
  - by apply inner_res_no_raise.
  - rewrite below_curve1_eq by (apply Hk; lia). by destruct (Rlt_dec _ _).
Qed.

Lemma solve_returns d t g :
  0 <= d -> (forall z, 1 <= z <= 2500 -> kelvin t g z <> 0%R) ->
  exists o, solve d t g = Return o.
Proof.
  intros Hd Hk. rewrite solve_eq.
  pose proof (search_out_no_raise d t g) as H.
  destruct (search_out d t g) as [[|v]|e]; cbn; eauto.
  by destruct (H e).
Qed.

(** C8, as amended.  Every call of the solver ends after at most 2500 * 2501
    evaluations of the logarithm (one per candidate of the outer scan, and
    2500 for each inner scan it starts), with a found candidate, with [None],
    or with one of the two arithmetic exceptions; with a non-negative water
    depth and no zero divisor on the scan it ends with a found candidate or
    with [None]. *)
Theorem joides_terminates d t g s :
  (exists new,
     log_calls (snd (joides d t g s)) = new ++ log_calls s /\
     Z.of_nat (length new) <= 2500 * 2501) /\
  (fst (joides d t g s) = Return None \/
   (exists v, fst (joides d t g s) = Return (Some v) /\
      (memoize_dict s !! d = Some v \/ 1 <= v <= 2500)) \/
   fst (joides d t g s) = Raise ValueError \/
   fst (joides d t g s) = Raise ZeroDivisionError) /\
  (0 <= d -> (forall z, 1 <= z <= 2500 -> kelvin t g z <> 0%R) ->
   exists o, fst (joides d t g s) = Return o).
Proof.
  rewrite joides_eq. destruct (memoize_dict s !! d) as [v|] eqn:E; cbn.
  - split; [exists []; split; [done|cbn; lia]|].
    split; [right; left; eauto|eauto].
  - split.
    { exists (search_log d t g). split; [done|].
      pose proof (search_log_length d t g). lia. }
    split.
    + destruct (search_out d t g) as [[|v]|e] eqn:Es; cbn.
      * by left.
      * right. left. exists v. split; [done|]. right. by eapply search_out_ret.
      * assert (He : e = ValueError \/ e = ZeroDivisionError);
          [|destruct He as [-> | ->]; tauto].
        apply range_inv in Es as (z & _ & _ & Hout); [|done].
        revert Hout. unfold outer_out, below_curve, py_log, py_div.
        destruct (Rlt_dec _ _); [|intros [= <-]; by left].
        destruct (Rgt_dec _ _).
        -- intros Hin. apply range_inv in Hin as (z2 & _ & _ & Hout); [|done].
           revert Hout. unfold inner_out, below_curve, py_log, py_div.
           destruct (Rlt_dec _ _); [|intros [= <-]; by left].
           destruct (Req_dec_T _ _); [intros [= <-]; by right|].
           by destruct (Rlt_dec _ _).
        -- destruct (Req_dec_T _ _); [intros [= <-]; by right|].
           by destruct (Rlt_dec _ _).
    + intros Hd Hk. pose proof (search_out_no_raise d t g) as H.
      destruct (search_out d t g) as [[|v]|e]; cbn; eauto.
      by destruct (H e).
Qed.

(** Depth 0 at 4 degrees and 30 degrees per km. *)
Lemma joides_terminates_witness :
  (exists new,
     log_calls (snd (joides 0 4 30 init_state)) = new ++ log_calls init_state /\
     Z.of_nat (length new) <= 2500 * 2501) /\
  0 <= 0 /\ (forall z, 1 <= z <= 2500 -> kelvin 4 30 z <> 0%R) /\
  exists o, fst (joides 0 4 30 init_state) = Return o.
Proof.
  assert (Hk : forall z, 1 <= z <= 2500 -> kelvin 4 30 z <> 0%R).
  { intros z [Hz _]. apply IZR_le in Hz. unfold kelvin.
    apply Rgt_not_eq. lra. }
  destruct (joides_terminates 0 4 30 init_state) as (Hlog & _ & Hret).
  split; [done|]. split; [lia|]. split; [done|].
  apply Hret; [lia|done].
Defined.

(** ** The scan order (C2) and the exhausted search (C5) *)

Section ScanOrder.
Variables (d : Z) (t g : R).
Hypothesis depth_nonneg : 0 <= d.

Lemma candidate_log_defined z : 1 <= z -> (0 < log_arg d z)%R.
Proof. intros. by apply log_arg_pos. Qed.

Lemma inner_res_first z2 :
  1 <= z2 <= 2500 ->
  (forall z2', 1 <= z2' < z2 -> rejected2 d t g z2') ->
  accepted2 d t g z2 ->
  inner_res d t g = Return (Ret z2).
Proof.
  intros Hz2 Hbefore Hacc.
  assert (E : inner_out d t g z2 = Return (Ret z2))
    by (apply inner_out_accepted; [apply candidate_log_defined; lia|done]).
  unfold inner_res. rewrite (range_first _ 1 2501 z2); [done|lia| |by rewrite E].
  intros z' Hz'. apply inner_out_rejected; [|by apply Hbefore].
  apply candidate_log_defined; lia.
Qed.

Lemma inner_res_exhausted :
  (forall z2, 1 <= z2 <= 2500 -> rejected2 d t g z2) ->
  inner_res d t g = Return Next.
Proof.
  intros H. apply range_all_next. intros z2 Hz2.
  apply inner_out_rejected; [apply candidate_log_defined; lia|apply H; lia].
Qed.

Lemma search_first_branch z :
  1 <= z <= 2500 ->
  (forall z', 1 <= z' < z -> rejected1 d t g z') ->
  accepted1 d t g z ->
  search_out d t g = Return (Ret z).
Proof.
  intros Hz Hbefore Hacc.
  assert (E : outer_out d t g z = Return (Ret z))
    by (apply outer_out_accepted; [apply candidate_log_defined; lia|done]).
  unfold search_out. rewrite (range_first _ 1 2501 z); [done|lia| |by rewrite E].
  intros z' Hz'. apply outer_out_rejected; [|by apply Hbefore].
  apply candidate_log_defined; lia.
Qed.

Lemma search_second_branch z z2 :
  1 <= z <= 2500 -> 1 <= z2 <= 2500 ->
  (forall z', 1 <= z' < z -> rejected1 d t g z') ->
  switches d z ->
  (forall z2', 1 <= z2' < z2 -> rejected2 d t g z2') ->
  accepted2 d t g z2 ->
  search_out d t g = Return (Ret z2).
Proof.
  intros Hz Hz2 Hbefore Hsw Hbefore2 Hacc.
  assert (E : outer_out d t g z = Return (Ret z2)).
  { rewrite outer_out_switches; [|apply candidate_log_defined; lia|done].
    by apply inner_res_first. }
  unfold search_out. rewrite (range_first _ 1 2501 z); [done|lia| |by rewrite E].
  intros z' Hz'. apply outer_out_rejected; [|by apply Hbefore].
  apply candidate_log_defined; lia.
Qed.

Lemma scanned_snoc z : 1 <= z -> scanned d 1 (z + 1) = log_arg d z :: scanned d 1 z.
Proof.
  intros Hz. unfold scanned. by rewrite range_snoc, map_app, rev_app_distr.
Qed.

Lemma inner_log_first z2 :
  1 <= z2 <= 2500 ->
  (forall z2', 1 <= z2' < z2 -> rejected2 d t g z2') ->
  accepted2 d t g z2 ->
  inner_log d t g = scanned d 1 (z2 + 1).
Proof.
  intros Hz2 Hbefore Hacc. unfold inner_log.
  rewrite (range_first_log _ _ (log_arg d) 1 2501 z2); [|lia| |].
  - by rewrite scanned_snoc by lia.
  - intros z' Hz'. split; [|done].
    apply inner_out_rejected; [apply candidate_log_defined; lia|by apply Hbefore].
  - rewrite inner_out_accepted; [done|apply candidate_log_defined; lia|done].
Qed.

Lemma outer_log_rejected z :
  1 <= z -> rejected1 d t g z -> outer_log d t g z = [log_arg d z].
Proof.
  intros Hz (Hle & _). unfold outer_log.
  rewrite py_log_pos by (by apply candidate_log_defined).
  unfold pressure_log in Hle. fold (log_arg d z) in Hle.
  destruct (Rgt_dec _ _); [lra|done].
Qed.

Lemma search_log_first_branch z :
  1 <= z <= 2500 ->
  (forall z', 1 <= z' < z -> rejected1 d t g z') ->
  accepted1 d t g z ->
  search_log d t g = scanned d 1 (z + 1).
Proof.
  intros Hz Hbefore Hacc. unfold search_log.
  rewrite (range_first_log _ _ (log_arg d) 1 2501 z); [|lia| |].
  - rewrite scanned_snoc by lia. unfold outer_log.
    rewrite py_log_pos by (apply candidate_log_defined; lia).
    destruct Hacc as (Hle & _). unfold pressure_log in Hle.
    fold (log_arg d z) in Hle. destruct (Rgt_dec _ _); [lra|done].
  - intros z' Hz'. split.
    + apply outer_out_rejected; [apply candidate_log_defined; lia|by apply Hbefore].
    + apply outer_log_rejected; [lia|by apply Hbefore].
  - rewrite outer_out_accepted; [done|apply candidate_log_defined; lia|done].
Qed.

Lemma search_log_second_branch z z2 :
  1 <= z <= 2500 -> 1 <= z2 <= 2500 ->
  (forall z', 1 <= z' < z -> rejected1 d t g z') ->
  switches d z ->
  (forall z2', 1 <= z2' < z2 -> rejected2 d t g z2') ->
  accepted2 d t g z2 ->
  search_log d t g = scanned d 1 (z2 + 1) ++ scanned d 1 (z + 1).
Proof.
  intros Hz Hz2 Hbefore Hsw Hbefore2 Hacc. unfold search_log.
  rewrite (range_first_log _ _ (log_arg d) 1 2501 z); [|lia| |].
  - rewrite (scanned_snoc z) by lia. unfold outer_log.
    rewrite py_log_pos by (apply candidate_log_defined; lia).
    unfold switches, pressure_log in Hsw. fold (log_arg d z) in Hsw.
    destruct (Rgt_dec _ _); [|done].
    rewrite (inner_log_first z2) by done. by rewrite <- app_assoc.
  - intros z' Hz'. split.
    + apply outer_out_rejected; [apply candidate_log_defined; lia|by apply Hbefore].
    + apply outer_log_rejected; [lia|by apply Hbefore].
  - rewrite outer_out_switches, (inner_res_first z2);
      [done|done|done|done|apply candidate_log_defined; lia|done].
Qed.

Lemma search_exhausted :
  (forall z, 1 <= z <= 2500 -> switches d z \/ rejected1 d t g z) ->
  (forall z2, 1 <= z2 <= 2500 -> rejected2 d t g z2) ->
  search_out d t g = Return Next.
Proof.
  intros H1 H2. apply range_all_next. intros z Hz.
  assert (Hpos : (0 < log_arg d z)%R) by (apply candidate_log_defined; lia).
  destruct (H1 z) as [Hsw|Hrej]; [lia| |].
  - rewrite outer_out_switches by done. by apply inner_res_exhausted.
  - by apply outer_out_rejected.
Qed.
End ScanOrder.

(** The entry of the dictionary for a depth, if there is one, is what the
    search finds: on a miss, and in every state produced by calls with the
    same parameters. *)
Lemma entry_trusted d t g s :
  memoize_dict s !! d = None \/ produced_by t g s ->
  forall v, memoize_dict s !! d = Some v -> solve d t g = Return (Some v).
Proof.
  intros [Hmiss|Hprod] v Hv.
  - by rewrite Hmiss in Hv.
  - by apply (produced_by_memo_ok t g s Hprod).
Qed.

(** C2.  With a non-negative water depth, on a miss or in a state produced
    by calls with the same parameters: if the candidates before [z] were
    handled by the first branch ([a <= 9.355001]) and rejected, and [z] is
    handled by the first branch and passes [a < b], the solver returns [z];
    if instead [z] has [a > 9.355001], the solver returns the first [z2]
    of 1..2500 that passes [a2 < b2].  On a miss it does so by scanning the
    candidates in order: it has taken the logarithms of the candidates 1..z
    and, in the second case, then those of the candidates 1..z2 anew, and it
    has stored what it returns. *)
Theorem joides_scans_in_order d t g s :
  0 <= d -> memoize_dict s !! d = None \/ produced_by t g s ->
  (forall z, 1 <= z <= 2500 ->
     (forall z', 1 <= z' < z -> rejected1 d t g z') ->
     accepted1 d t g z ->
     fst (joides d t g s) = Return (Some z) /\
     (memoize_dict s !! d = None ->
      snd (joides d t g s) =
        State (<[d := z]> (memoize_dict s))
              (scanned d 1 (z + 1) ++ log_calls s))) /\
  (forall z z2, 1 <= z <= 2500 -> 1 <= z2 <= 2500 ->
     (forall z', 1 <= z' < z -> rejected1 d t g z') ->
     switches d z ->
     (forall z2', 1 <= z2' < z2 -> rejected2 d t g z2') ->
     accepted2 d t g z2 ->
     fst (joides d t g s) = Return (Some z2) /\
     (memoize_dict s !! d = None ->
      snd (joides d t g s) =
        State (<[d := z2]> (memoize_dict s))
              ((scanned d 1 (z2 + 1) ++ scanned d 1 (z + 1)) ++ log_calls s))).
Proof.
  intros Hd Hs. pose proof (entry_trusted d t g s Hs) as Hentry.
  rewrite joides_eq. split.
  - intros z Hz Hbefore Hacc.
    pose proof (search_first_branch d t g Hd z Hz Hbefore Hacc) as Hout.
    destruct (memoize_dict s !! d) as [v|].
    + specialize (Hentry v eq_refl). rewrite solve_eq, Hout in Hentry.
      split; [done|]. intros Hmiss. discriminate Hmiss.
    + rewrite Hout, (search_log_first_branch d t g Hd z); done.
  - intros z z2 Hz Hz2 Hbefore Hsw Hbefore2 Hacc.
    pose proof (search_second_branch d t g Hd z z2 Hz Hz2 Hbefore Hsw Hbefore2 Hacc)
      as Hout.
    destruct (memoize_dict s !! d) as [v|].
    + specialize (Hentry v eq_refl). rewrite solve_eq, Hout in Hentry.
      split; [done|]. intros Hmiss. discriminate Hmiss.
    + rewrite Hout, (search_log_second_branch d t g Hd z z2); done.
Qed.

(** C5.  With a non-negative water depth, on a miss or in a state produced
    by calls with the same parameters: if every candidate of the outer scan
    either goes to the second branch or is rejected by the first test, and
    every candidate of the inner scan is rejected by the second test, the
    solver returns [None], not an integer, and leaves the dictionary as it
    was. *)
Theorem exhausted_search_returns_none d t g s :
  0 <= d -> memoize_dict s !! d = None \/ produced_by t g s ->
  (forall z, 1 <= z <= 2500 -> switches d z \/ rejected1 d t g z) ->
  (forall z2, 1 <= z2 <= 2500 -> rejected2 d t g z2) ->
  fst (joides d t g s) = Return None /\
  memoize_dict (snd (joides d t g s)) = memoize_dict s.
Proof.
  intros Hd Hs H1 H2. pose proof (entry_trusted d t g s Hs) as Hentry.
  pose proof (search_exhausted d t g Hd H1 H2) as Hout.
  rewrite joides_eq. destruct (memoize_dict s !! d) as [v|].
  - specialize (Hentry v eq_refl). by rewrite solve_eq, Hout in Hentry.
  - by rewrite Hout.
Qed.

(** ** The simplified solver (C10) *)

Section SimplifiedFacts.
Variables (d : Z) (t g : R).

Lemma stored_simplified_next m : stored_simplified d (Return Next) m = m.
Proof. done. Qed.

Lemma outer_body_simplified_eq z s :
  outer_body_simplified d t g z s =
    (outer_out_simplified d t g z,
     State (stored_simplified d (outer_out_simplified d t g z) (memoize_dict s))
           (outer_log_simplified d t g z ++ log_calls s)).
Proof.
  unfold outer_body_simplified, outer_out_simplified, outer_log_simplified,
    outer_out, outer_log, below_curve, bind, math_log, lift, memo_store, ret,
    kelvin.
  fold (log_arg d z).
  destruct (py_log _) as [a|e]; [|done].
  destruct (Rgt_dec _ _) as [Hgt|Hle].
  - rewrite inner_loop_eq. cbn. rewrite <- app_assoc. cbn.
    by destruct (inner_res d t g) as [[|v]|e].
  - destruct (py_div _ _) as [q|e]; [|done].
    by destruct (Rlt_dec _ _).
Qed.

Lemma joides_simplified_eq s :
  joides_simplified d t g s =
    match memoize_dict s !! d with
    | Some v => (Return (Some v), s)
    | None =>
        let r := loop_out (outer_out_simplified d t g) (range 1 2501) in
        (match r with
         | Return (Ret v) => Return v
         | Return Next => Return None
         | Raise e => Raise e
         end,
         State (stored_simplified d r (memoize_dict s))
               (loop_log (outer_out_simplified d t g)
                  (outer_log_simplified d t g) (range 1 2501) ++ log_calls s))
    end.
Proof.
  unfold joides_simplified. destruct (memoize_dict s !! d); [done|].
  unfold bind.
  rewrite (for_in_spec (outer_body_simplified d t g)
             (outer_out_simplified d t g) (stored_simplified d)
             (outer_log_simplified d t g)
             stored_simplified_next outer_body_simplified_eq).
  by destruct (loop_out _ _) as [[|v]|e].
Qed.

Lemma outer_out_simplified_next z :
  outer_out_simplified d t g z = Return Next ->
  outer_out d t g z = Return Next.
Proof.
  unfold outer_out_simplified. by destruct (outer_out d t g z) as [[|v]|e].
Qed.

(** Once a candidate has gone to the second branch and its inner scan found
    nothing, every later candidate does the same. *)
Lemma failed_switch_repeats z z' :
  (0 < log_arg d z)%R -> switches d z -> inner_res d t g = Return Next ->
  z <= z' -> outer_out d t g z' = Return Next.
Proof.
  intros Hpos Hsw Hin Hle.
  assert (Hpos' : (0 < log_arg d z')%R).
  { revert Hpos. unfold log_arg.
    assert (IZR (d + z) <= IZR (d + z'))%R by (apply IZR_le; lia). lra. }
  rewrite outer_out_switches; [done|done|].
  unfold switches in *. pose proof (pressure_log_mono d z z' Hpos Hle). lra.
Qed.

Lemma search_simplified_agrees :
  let r := loop_out (outer_out_simplified d t g) (range 1 2501) in
  match r with
  | Return (Ret v) => Return v
  | Return Next => Return None
  | Raise e => Raise e
  end = returned (search_out d t g) /\
  forall m, stored_simplified d r m = stored d (search_out d t g) m.
Proof.
  intros r. destruct r as [[|o]|e] eqn:Er; subst r.
  - (* the simplified scan fell through everywhere *)
    assert (E : search_out d t g = Return Next).
    { apply range_all_next. intros z Hz. apply outer_out_simplified_next.
      by eapply range_next_inv. }
    by rewrite E.
  - apply range_inv in Er as (z & Hz & Hpre & Hout); [|done].
    assert (Hbefore : forall z', 1 <= z' < z -> outer_out d t g z' = Return Next)
      by (intros; apply outer_out_simplified_next; auto).
    revert Hout. unfold outer_out_simplified.
    destruct (outer_out d t g z) as [[|v]|e'] eqn:Eo; [| |done].
    + (* the inner scan found nothing *)
      destruct (py_log _) as [a|] eqn:El; [|done].
      apply py_log_return in El as [Hpos ->].
      destruct (Rgt_dec _ _) as [Hgt|]; [|done]. intros [= <-].
      assert (Hin : inner_res d t g = Return Next)
        by (by rewrite <- (outer_out_switches d t g z)).
      assert (E : search_out d t g = Return Next).
      { apply range_all_next. intros z' Hz'.
        destruct (Z_lt_le_dec z' z); [apply Hbefore; lia|].
        by apply (failed_switch_repeats z). }
      by rewrite E.
    + intros [= <-].
      assert (E : search_out d t g = Return (Ret v)).
      { unfold search_out. rewrite (range_first _ 1 2501 z); try done.
        by rewrite Eo. }
      by rewrite E.
  - apply range_inv in Er as (z & Hz & Hpre & Hout); [|done].
    assert (Hbefore : forall z', 1 <= z' < z -> outer_out d t g z' = Return Next)
      by (intros; apply outer_out_simplified_next; auto).
    revert Hout. unfold outer_out_simplified.
    destruct (outer_out d t g z) as [[|v]|e'] eqn:Eo; [|done|].
    + destruct (py_log _) as [a|] eqn:El.
      * by destruct (Rgt_dec _ _).
      * exfalso. revert Eo. unfold outer_out. by rewrite El.
    + intros [= <-].
      assert (E : search_out d t g = Raise e').
      { unfold search_out. rewrite (range_first _ 1 2501 z); try done.
        by rewrite Eo. }
      by rewrite E.
Qed.
End SimplifiedFacts.

(** C10.  The solver returns, and stores, exactly what the simplified solver
    does that runs the inner scan once, at the first candidate with
    [a > 9.355001], and returns its outcome.  (The logarithm grows with [z],
    so a failed inner scan is followed by nothing but further failed inner
    scans.  The statement needs no assumption on the water depth: with a
    negative one both raise at the same candidate.) *)
Theorem joides_equals_simplified d t g s :
  fst (joides d t g s) = fst (joides_simplified d t g s) /\
  memoize_dict (snd (joides d t g s)) =
    memoize_dict (snd (joides_simplified d t g s)).
Proof.
  rewrite joides_eq, joides_simplified_eq.
  destruct (memoize_dict s !! d); [done|].
  destruct (search_simplified_agrees d t g) as [Hr Hm].
  cbv zeta. unfold fst, snd, memoize_dict. by rewrite Hr, Hm.
Qed.

(** ** Bounds on the logarithm

    The exponential is bracketed by powers of rationals,
    [(1 + c/n)^n <= exp c] and [exp c * (1 - c/n)^n <= 1]; comparing a
    rational with such a power is a computation on integers. *)

Section LnBounds.
Local Open Scope R_scope.

Lemma exp_nat_mult (n : nat) (y : R) : exp (INR n * y) = exp y ^ n.
Proof.
  induction n as [|n IH].
  - simpl. rewrite Rmult_0_l. apply exp_0.
  - rewrite S_INR, Rmult_plus_distr_r, Rmult_1_l, exp_plus, IH. simpl. ring.
Qed.

Lemma exp_pow_lower (c : R) (n : nat) :
  (0 < n)%nat -> 0 <= c -> (1 + c / INR n) ^ n <= exp c.
Proof.
  intros Hn Hc.
  assert (Hn' : 0 < INR n) by (apply lt_0_INR; lia).
  assert (Hy : 0 <= c / INR n).
  { apply Rmult_le_pos; [lra|]. left. by apply Rinv_0_lt_compat. }
  replace c with (INR n * (c / INR n)) at 2 by (field; lra).
  rewrite exp_nat_mult. apply pow_incr. split; [lra|]. apply exp_ineq1_le.
Qed.

Lemma exp_pow_upper (c : R) (n : nat) :
  0 <= c < INR n -> exp c * (1 - c / INR n) ^ n <= 1.
Proof.
  intros [Hc Hn].
  assert (Hn' : 0 < INR n) by lra.
  assert (Hy : 0 <= c / INR n < 1).
  { split.
    - apply Rmult_le_pos; [lra|]. left. by apply Rinv_0_lt_compat.
    - apply (Rmult_lt_reg_r (INR n)); [done|].
      unfold Rdiv. rewrite Rmult_assoc, Rinv_l by (apply Rgt_not_eq; lra). lra. }
  replace c with (INR n * (c / INR n)) at 1 by (field; lra).
  rewrite exp_nat_mult, <- Rpow_mult_distr.
  apply Rle_trans with (1 ^ n); [|rewrite pow1; lra]. apply pow_incr. split.
  - apply Rmult_le_pos; [left; apply exp_pos|lra].
  - pose proof (exp_ineq1_le (- (c / INR n))) as H.
    rewrite exp_Ropp in H.
    pose proof (exp_pos (c / INR n)) as Hp.
    apply (Rmult_le_compat_l (exp (c / INR n))) in H; [|lra].
    rewrite Rinv_r in H by lra. lra.
Qed.

(** [ln x < num/den] and [num/den < ln x], checked on integers: with
    [c = num/den], [(1 + c/n)^n <= exp c <= (1 - c/n)^-n]. *)
Lemma ln_lt_frac (x : R) (a b num den : Z) (n : nat) :
  0 < x -> (0 < b)%Z -> (0 < den)%Z -> (0 <= num)%Z -> (0 < n)%nat ->
  x * IZR b <= IZR a ->
  (a * (den * Z.of_nat n) ^ Z.of_nat n <? (den * Z.of_nat n + num) ^ Z.of_nat n * b)%Z = true ->
  ln x < IZR num / IZR den.
Proof.
  intros Hx Hb Hden Hnum Hn Hxa Hcmp.
  apply Z.ltb_lt in Hcmp. apply IZR_lt in Hcmp.
  rewrite !mult_IZR, <- !pow_IZR, !mult_IZR, plus_IZR, mult_IZR, <- !INR_IZR_INZ in Hcmp.
  assert (Hb' : 0 < IZR b) by (by apply IZR_lt).
  assert (Hden' : 0 < IZR den) by (by apply IZR_lt).
  assert (Hnum' : 0 <= IZR num) by (by apply IZR_le).
  assert (Hn' : 0 < INR n) by (apply lt_0_INR; lia).
  set (c := IZR num / IZR den).
  assert (Hc : 0 <= c).
  { apply Rmult_le_pos; [done|]. left. by apply Rinv_0_lt_compat. }
  apply exp_lt_inv. rewrite exp_ln by done.
  eapply Rlt_le_trans; [|apply (exp_pow_lower c n Hn Hc)].
  replace (1 + c / INR n) with ((IZR den * INR n + IZR num) / (IZR den * INR n))
    by (unfold c; field; lra).
  unfold Rdiv at 1. rewrite Rpow_mult_distr, pow_inv. fold (Rdiv ((IZR den * INR n + IZR num) ^ n) ((IZR den * INR n) ^ n)).
  assert (Hpow : 0 < (IZR den * INR n) ^ n) by (apply pow_lt; nra).
  apply (Rmult_lt_reg_r ((IZR den * INR n) ^ n)); [done|].
  unfold Rdiv at 1. rewrite Rmult_assoc, Rinv_l, Rmult_1_r by lra.
  apply (Rmult_lt_reg_r (IZR b)); [done|].
  eapply Rle_lt_trans; [|apply Hcmp].
  apply (Rmult_le_compat_r ((IZR den * INR n) ^ n)) in Hxa; [|lra]. lra.
Qed.

Lemma ln_gt_frac (x : R) (a b num den : Z) (n : nat) :
  (0 < a)%Z -> (0 < b)%Z -> (0 < den)%Z -> (0 <= num < den * Z.of_nat n)%Z ->
  IZR a <= x * IZR b ->
  ((den * Z.of_nat n) ^ Z.of_nat n * b <? a * (den * Z.of_nat n - num) ^ Z.of_nat n)%Z = true ->
  IZR num / IZR den < ln x.
Proof.
  intros Ha Hb Hden [Hnum Hlt] Hxa Hcmp.
  apply Z.ltb_lt in Hcmp. apply IZR_lt in Hcmp.
  rewrite !mult_IZR, <- !pow_IZR, minus_IZR, !mult_IZR, <- !INR_IZR_INZ in Hcmp.
  apply IZR_lt in Hlt. rewrite mult_IZR, <- INR_IZR_INZ in Hlt.
  assert (Ha' : 0 < IZR a) by (by apply IZR_lt).
  assert (Hb' : 0 < IZR b) by (by apply IZR_lt).
  assert (Hden' : 0 < IZR den) by (by apply IZR_lt).
  assert (Hnum' : 0 <= IZR num) by (by apply IZR_le).
  assert (Hx : 0 < x) by nra.
  assert (Hn' : 0 < INR n) by nra.
  set (c := IZR num / IZR den).
  assert (Hc : 0 <= c < INR n).
  { split.
    - apply Rmult_le_pos; [done|]. left. by apply Rinv_0_lt_compat.
    - apply (Rmult_lt_reg_r (IZR den)); [done|]. unfold c, Rdiv.
      rewrite Rmult_assoc, Rinv_l by (apply Rgt_not_eq; lra). lra. }
  apply exp_lt_inv. rewrite exp_ln by done.
  pose proof (exp_pow_upper c n Hc) as Hup.
  replace (1 - c / INR n) with ((IZR den * INR n - IZR num) / (IZR den * INR n)) in Hup
    by (unfold c; field; lra).
  unfold Rdiv at 1 in Hup. rewrite Rpow_mult_distr, pow_inv in Hup.
  assert (Hpow : 0 < (IZR den * INR n) ^ n) by (apply pow_lt; nra).
  assert (Hpow' : 0 < (IZR den * INR n - IZR num) ^ n) by (apply pow_lt; nra).
  set (P := (IZR den * INR n) ^ n) in *.
  set (Q := (IZR den * INR n - IZR num) ^ n) in *.
  assert (Hup' : exp c * Q <= P).
  { apply (Rmult_le_compat_r P) in Hup; [|lra].
    unfold Rdiv in Hup. 
    replace (exp c * (Q * / P) * P) with (exp c * Q) in Hup by (field; lra). lra. }
  assert (H1 : P * IZR b < x * IZR b * Q).
  { eapply Rlt_le_trans; [apply Hcmp|]. apply Rmult_le_compat_r; lra. }
  apply (Rmult_lt_reg_r (Q * IZR b)); [nra|]. nra.
Qed.

Lemma ln_10 : ln (10.17 * IZR 1) < 8.
Proof.
  replace 8 with (IZR 8 / IZR 1) by lra.
  apply (ln_lt_frac _ 1017 100 8 1 4); try lia; try lra.
  vm_compute. reflexivity.
Qed.

Lemma ln_20350_lower : 9.7 < ln (10.17 * IZR 2001).
Proof.
  replace 9.7 with (IZR 97 / IZR 10) by lra.
  apply (ln_gt_frac _ 2035017 100 97 10 512); try lia; try lra.
  vm_compute. reflexivity.
Qed.

Lemma ln_20350_upper : ln (10.17 * IZR 2001) < 11.
Proof.
  replace 11 with (IZR 11 / IZR 1) by lra.
  apply (ln_lt_frac _ 2035017 100 11 1 128); try lia; try lra.
  vm_compute. reflexivity.
Qed.

Lemma ln_25425_lower : 9.355001 < ln (10.17 * IZR 2500).
Proof.
  replace 9.355001 with (IZR 9355001 / IZR 1000000) by lra.
  apply (ln_gt_frac _ 25425 1 9355001 1000000 128); try lia; try lra.
  vm_compute. reflexivity.
Qed.

Lemma ln_50850_upper : ln (10.17 * IZR 5000) < 11.5.
Proof.
  replace 11.5 with (IZR 23 / IZR 2) by lra.
  apply (ln_lt_frac _ 50850 1 23 2 256); try lia; try lra.
  vm_compute. reflexivity.
Qed.

Lemma ln_1017000_lower : 12.5 < ln (10.17 * IZR 100000).
Proof.
  replace 12.5 with (IZR 25 / IZR 2) by lra.
  apply (ln_gt_frac _ 1017000 1 25 2 128); try lia; try lra.
  vm_compute. reflexivity.
Qed.

(** The logarithm of the scan between two depths. *)

Lemma pressure_log_lower d z n :
  (1 <= n <= d + z)%Z -> ln (10.17 * IZR n) <= pressure_log d z.
Proof.
  intros [H1 H2]. unfold pressure_log.
  apply IZR_le in H1. apply IZR_le in H2.
  destruct H2 as [H2|H2]; [left|right; by rewrite H2].
  apply ln_increasing; lra.
Qed.

Lemma pressure_log_upper d z n :
  (1 <= d + z <= n)%Z -> pressure_log d z <= ln (10.17 * IZR n).
Proof.
  intros [H1 H2]. unfold pressure_log.
  apply IZR_le in H1. apply IZR_le in H2.
  destruct H2 as [H2|H2]; [left|right; by rewrite H2].
  apply ln_increasing; lra.
Qed.

(** The curves between two temperatures. *)

Lemma quotient_antitone k x y : 0 <= k -> 0 < x <= y -> k / y <= k / x.
Proof.
  intros Hk [Hx Hxy]. unfold Rdiv. apply Rmult_le_compat_l; [done|].
  apply Rinv_le_contravar; lra.
Qed.

Lemma curve1_upper t g z x :
  0 < kelvin t g z <= x -> curve1 t g z <= 38.53 - 8386.8 / x.
Proof.
  intros H. unfold curve1.
  pose proof (quotient_antitone 8386.8 _ _ ltac:(lra) H). lra.
Qed.

Lemma curve1_lower t g z x :
  0 < x <= kelvin t g z -> 38.53 - 8386.8 / x <= curve1 t g z.
Proof.
  intros H. unfold curve1.
  pose proof (quotient_antitone 8386.8 _ _ ltac:(lra) H). lra.
Qed.

Lemma curve2_upper t g z x :
  0 < kelvin t g z <= x -> curve2 t g z <= 46.74 - 10748.1 / x.
Proof.
  intros H. unfold curve2.
  pose proof (quotient_antitone 10748.1 _ _ ltac:(lra) H). lra.
Qed.

Lemma curve2_lower t g z x :
  0 < x <= kelvin t g z -> 46.74 - 10748.1 / x <= curve2 t g z.
Proof.
  intros H. unfold curve2.
  pose proof (quotient_antitone 10748.1 _ _ ltac:(lra) H). lra.
Qed.

Lemma kelvin_mono t g z z' :
  0 <= g -> (z <= z')%Z -> kelvin t g z <= kelvin t g z'.
Proof.
  intros Hg Hz. unfold kelvin. apply IZR_le in Hz. nra.
Qed.
End LnBounds.

(** ** Concrete searches *)

Section Concrete.
Local Open Scope R_scope.

Lemma switches_2000 z : (1 <= z)%Z -> switches 2000 z.
Proof.
  intros Hz. unfold switches.
  pose proof (pressure_log_lower 2000 z 2001 ltac:(lia)).
  pose proof ln_20350_lower. lra.
Qed.

Lemma switches_99999 z : (1 <= z)%Z -> switches 99999 z.
Proof.
  intros Hz. unfold switches.
  pose proof (pressure_log_lower 99999 z 100000 ltac:(lia)).
  pose proof ln_1017000_lower. lra.
Qed.

(** Depth 0 at 4 degrees and 30 degrees per km: the first candidate passes
    the first test. *)
Lemma accepted1_0_4_30 : accepted1 0 4 30 1.
Proof.
  unfold accepted1, pressure_log, curve1, kelvin. change (0 + 1)%Z with 1%Z.
  pose proof ln_10. repeat split; lra.
Qed.

(** Depth 2000 at 30 degrees: the first candidate goes to the second branch,
    whose first candidate passes. *)
Lemma accepted2_2000_30_30 : accepted2 2000 30 30 1.
Proof.
  unfold accepted2, pressure_log, curve2, kelvin. change (2000 + 1)%Z with 2001%Z.
  pose proof ln_20350_upper. split; lra.
Qed.

(** Depth 2000 at 4 degrees: the first candidate of the inner scan fails. *)
Lemma rejected2_2000_4_30 : rejected2 2000 4 30 1.
Proof.
  unfold rejected2, pressure_log, curve2, kelvin. change (2000 + 1)%Z with 2001%Z.
  pose proof ln_20350_lower. split; lra.
Qed.

(** At 4 degrees and 5 degrees per km the second curve stays below 9.7 on
    the whole scan: depth 2000 and the no-data depth 99999 find nothing. *)
Lemma curve2_4_5 z2 :
  (1 <= z2 <= 2500)%Z -> kelvin 4 5 z2 <> 0 /\ curve2 4 5 z2 < 9.7.
Proof.
  intros [H1 H2]. apply IZR_le in H1. apply IZR_le in H2.
  assert (Hk : 0 < kelvin 4 5 z2 <= 289.65) by (unfold kelvin; lra).
  split; [lra|]. pose proof (curve2_upper 4 5 z2 _ Hk). lra.
Qed.

Lemma rejected2_2000_4_5 z2 : (1 <= z2 <= 2500)%Z -> rejected2 2000 4 5 z2.
Proof.
  intros Hz. destruct (curve2_4_5 z2 Hz) as [Hk Hc].
  pose proof (switches_2000 z2 ltac:(lia)) as Hs.
  pose proof (pressure_log_lower 2000 z2 2001 ltac:(lia)).
  pose proof ln_20350_lower. split; [done|lra].
Qed.

End Concrete.

Lemma solve_0_4_30 : solve 0 4 30 = Return (Some 1).
Proof.
  rewrite solve_eq, (search_first_branch 0 4 30 ltac:(lia) 1); [done|lia| |].
  - intros z' Hz'. lia.
  - apply accepted1_0_4_30.
Qed.

Lemma solve_2000_30_30 : solve 2000 30 30 = Return (Some 1).
Proof.
  rewrite solve_eq, (search_second_branch 2000 30 30 ltac:(lia) 1 1);
    [done|lia|lia| | | |].
  - intros z' Hz'. lia.
  - apply switches_2000. lia.
  - intros z' Hz'. lia.
  - apply accepted2_2000_30_30.
Qed.

Lemma solve_2000_4_30_not_1 : solve 2000 4 30 <> Return (Some 1).
Proof.
  rewrite solve_eq. destruct (search_out 2000 4 30) as [[|v]|e] eqn:E; try done.
  intros [= ->]. apply search_out_ret_inv in E as (_ & _ & [Hacc|Hacc]).
  - destruct Hacc as [Hle _]. pose proof (switches_2000 1 ltac:(lia)) as Hs.
    unfold switches in Hs. lra.
  - destruct Hacc as [_ Hlt]. by destruct rejected2_2000_4_30.
Qed.

Lemma solve_2000_4_5 : solve 2000 4 5 = Return None.
Proof.
  rewrite solve_eq, (search_exhausted 2000 4 5 ltac:(lia)); [done| |].
  - intros z Hz. left. apply switches_2000. lia.
  - apply rejected2_2000_4_5.
Qed.


(** ** Witnesses and counterexamples for the solver *)

(** A second call at depth 0, 4 degrees and 30 degrees per km. *)
Lemma memo_transparent_same_parameters_witness :
  produced_by 4 30 (snd (joides 0 4 30 init_state)) /\
  fst (joides 0 4 30 (snd (joides 0 4 30 init_state))) =
    fst (joides 0 4 30 (cleared (snd (joides 0 4 30 init_state)))).
Proof.
  assert (H : produced_by 4 30 (snd (joides 0 4 30 init_state)))
    by (apply produced_by_call; by apply produced_by_clear).
  split; [done|].
  apply (memo_transparent_same_parameters 0 4 30 _ H).
Defined.

(** Depth 2000 at 4 degrees and 5 degrees per km returns [None] and stores
    nothing; depth 0 at 4 degrees and 30 degrees per km changes the empty
    dictionary. *)
Lemma joides_caches_only_found_witness :
  (fst (joides 2000 4 5 init_state) = Return None /\
   memoize_dict (snd (joides 2000 4 5 init_state)) = memoize_dict init_state) /\
  (memoize_dict (snd (joides 0 4 30 init_state)) <> memoize_dict init_state /\
   exists v, 1 <= v <= 2500 /\
     fst (joides 0 4 30 init_state) = Return (Some v) /\
     memoize_dict init_state !! 0 = None /\
     memoize_dict (snd (joides 0 4 30 init_state))
       = <[0 := v]> (memoize_dict init_state)).
Proof.
  assert (Hnone : fst (joides 2000 4 5 init_state) = Return None).
  { rewrite joides_init. unfold fst. rewrite <- solve_eq. apply solve_2000_4_5. }
  assert (Hchanged :
    memoize_dict (snd (joides 0 4 30 init_state)) <> memoize_dict init_state).
  { rewrite joides_init. pose proof solve_0_4_30 as H. rewrite solve_eq in H.
    destruct (search_out 0 4 30) as [[|v]|e]; [done| |done].
    unfold snd, memoize_dict, stored, init_state. apply insert_non_empty. }
  split.
  - split; [done|].
    apply (proj1 (joides_caches_only_found 2000 4 5 init_state) Hnone).
  - split; [done|].
    apply (proj2 (joides_caches_only_found 0 4 30 init_state) Hchanged).
Defined.

(** Depth 0 at 4 degrees returns its first candidate from the first branch;
    depth 2000 at 30 degrees returns the first candidate of the inner scan.
    Both take 30 degrees per km. *)
Lemma joides_scans_in_order_witness :
  (0 <= 0 /\ memoize_dict init_state !! 0 = None /\
   accepted1 0 4 30 1 /\
   fst (joides 0 4 30 init_state) = Return (Some 1) /\
   snd (joides 0 4 30 init_state) =
     State (<[0 := 1]> (memoize_dict init_state))
           (scanned 0 1 (1 + 1) ++ log_calls init_state)) /\
  (0 <= 2000 /\ memoize_dict init_state !! 2000 = None /\
   switches 2000 1 /\ accepted2 2000 30 30 1 /\
   fst (joides 2000 30 30 init_state) = Return (Some 1) /\
   snd (joides 2000 30 30 init_state) =
     State (<[2000 := 1]> (memoize_dict init_state))
           ((scanned 2000 1 (1 + 1) ++ scanned 2000 1 (1 + 1))
              ++ log_calls init_state)).
Proof.
  split.
  - split; [lia|]. split; [apply lookup_empty|].
    split; [apply accepted1_0_4_30|].
    destruct (proj1 (joides_scans_in_order 0 4 30 init_state
                       ltac:(lia) (or_introl (lookup_empty _))) 1)
      as [Hres Hstate]; [lia| | |].
    + intros z' Hz'. lia.
    + apply accepted1_0_4_30.
    + split; [done|]. apply Hstate, lookup_empty.
  - split; [lia|]. split; [apply lookup_empty|].
    split; [apply switches_2000; lia|].
    split; [apply accepted2_2000_30_30|].
    destruct (proj2 (joides_scans_in_order 2000 30 30 init_state
                       ltac:(lia) (or_introl (lookup_empty _))) 1 1)
      as [Hres Hstate]; [lia|lia| | | | |].
    + intros z' Hz'. lia.
    + apply switches_2000. lia.
    + intros z' Hz'. lia.
    + apply accepted2_2000_30_30.
    + split; [done|]. apply Hstate, lookup_empty.
Defined.

(** Depth 2000 at 4 degrees and 5 degrees per km: every candidate goes to the
    second branch, whose curve stays below the logarithm. *)
Lemma exhausted_search_returns_none_witness :
  0 <= 2000 /\ memoize_dict init_state !! 2000 = None /\
  (forall z, 1 <= z <= 2500 -> switches 2000 z \/ rejected1 2000 4 5 z) /\
  (forall z2, 1 <= z2 <= 2500 -> rejected2 2000 4 5 z2) /\
  fst (joides 2000 4 5 init_state) = Return None /\
  memoize_dict (snd (joides 2000 4 5 init_state)) = memoize_dict init_state.
Proof.
  assert (H1 : forall z, 1 <= z <= 2500 -> switches 2000 z \/ rejected1 2000 4 5 z)
    by (intros z Hz; left; apply switches_2000; lia).
  split; [lia|]. split; [apply lookup_empty|].
  split; [done|]. split; [apply rejected2_2000_4_5|].
  apply (exhausted_search_returns_none 2000 4 5 init_state
           ltac:(lia) (or_introl (lookup_empty _)) H1 rejected2_2000_4_5).
Defined.

(** ** The script: rejection of negative rasters (C6) *)




(** ** The cast to integers *)

Lemma trunc_nonneg x : (0 <= x)%R -> 0 <= trunc x.
Proof.
  intros Hx. unfold trunc. destruct (Rle_dec 0 x); [|done].
  destruct (base_Int_part x) as [_ H].
  assert (Hlt : (IZR (-1) < IZR (Int_part x))%R) by lra.
  apply lt_IZR in Hlt. lia.
Qed.

Lemma trunc_le x n : (0 <= x <= IZR n)%R -> trunc x <= n.
Proof.
  intros Hx. unfold trunc. destruct (Rle_dec 0 x); [|lra].
  destruct (base_Int_part x) as [H _]. apply le_IZR. lra.
Qed.

Lemma Int_part_IZR n : Int_part (IZR n) = n.
Proof.
  destruct (base_Int_part (IZR n)) as [H1 H2].
  apply le_IZR in H1.
  assert (H3 : (IZR (n - 1) < IZR (Int_part (IZR n)))%R)
    by (rewrite minus_IZR; lra).
  apply lt_IZR in H3. lia.
Qed.

Lemma trunc_IZR n : trunc (IZR n) = n.
Proof.
  unfold trunc. destruct (Rle_dec 0 (IZR n)).
  - apply Int_part_IZR.
  - rewrite <- opp_IZR, Int_part_IZR. lia.
Qed.

Lemma int_range : int_min < -99999 /\ 99999 < depth_max /\ depth_max <= int_max.
Proof. by vm_compute. Qed.

Lemma to_int_in_range n : int_min <= n <= int_max ->
  (if (int_min <=? n) && (n <=? int_max) then n else int_min) = n.
Proof.
  intros [H1 H2]. apply Z.leb_le in H1, H2. by rewrite H1, H2.
Qed.

Lemma to_int_fits x :
  (0 <= x <= IZR int_max)%R -> to_int x = trunc x /\ 0 <= trunc x <= int_max.
Proof.
  intros Hx. pose proof (trunc_nonneg x ltac:(lra)) as H0.
  pose proof (trunc_le x int_max Hx) as H1.
  split; [|lia]. unfold to_int. cbv zeta. apply to_int_in_range.
  pose proof int_range. lia.
Qed.

Lemma to_int_IZR n : int_min <= n <= int_max -> to_int (IZR n) = n.
Proof.
  intros Hn. unfold to_int. cbv zeta. rewrite trunc_IZR.
  by apply to_int_in_range.
Qed.

Lemma cell_depth_nodata : cell_depth None = 99999.
Proof.
  unfold cell_depth. apply to_int_IZR. pose proof int_range. lia.
Qed.

Lemma cell_depth_IZR n : -99999 <= n <= 99999 -> cell_depth (Some (IZR n)) = n.
Proof.
  intros Hn. unfold cell_depth. apply to_int_IZR. pose proof int_range. lia.
Qed.

(** A data cell within the practical range has a depth within it. *)
Lemma cell_depth_practical x :
  (0 <= x <= 2500)%R -> 0 <= cell_depth (Some x) <= 2500.
Proof.
  intros Hx. unfold cell_depth.
  assert (Hmax : (IZR 2500 <= IZR int_max)%R)
    by (apply IZR_le; pose proof int_range; lia).
  destruct (to_int_fits x ltac:(lra)) as [-> [H0 _]].
  split; [done|]. apply trunc_le. lra.
Qed.

(** With statistics that bound the cells of a raster that passed the guard,
    every depth is one the solver can add its candidates to. *)
Lemma cell_depth_bounds r row c :
  stats_ok r -> (0 <= minimum r)%R -> (maximum r <= IZR depth_max)%R ->
  row ∈ cells r -> c ∈ row ->
  0 <= cell_depth c <= depth_max.
Proof.
  intros Hstats Hmin Hmax Hrow Hc. pose proof int_range as Hr.
  destruct c as [x|]; [|rewrite cell_depth_nodata; lia].
  destruct (Hstats row x Hrow Hc) as [Hx1 Hx2]. unfold cell_depth.
  assert (Hle : (IZR depth_max <= IZR int_max)%R) by (apply IZR_le; lia).
  destruct (to_int_fits x ltac:(lra)) as [-> [H0 _]].
  split; [done|]. apply trunc_le. lra.
Qed.

Lemma guard_passes r :
  (0 <= minimum r)%R -> (0 <= maximum r)%R ->
  Rltb (minimum r) 0 || Rltb (maximum r) 0 = false.
Proof.
  intros Hmin Hmax. unfold Rltb.
  destruct (Rlt_dec (minimum r) 0); [lra|].
  destruct (Rlt_dec (maximum r) 0); [lra|done].
Qed.

Lemma guard_passed r :
  Rltb (minimum r) 0 || Rltb (maximum r) 0 = false ->
  (0 <= minimum r)%R /\ (0 <= maximum r)%R.
Proof.
  unfold Rltb. destruct (Rlt_dec (minimum r) 0); [done|].
  destruct (Rlt_dec (maximum r) 0); [done|]. intros _. lra.
Qed.

(** ** The script: what a run returns *)

Lemma mapM_spec {A B} (f : A -> M B) (pf : A -> result B) (I : state -> Prop) :
  (forall a s, I s -> fst (f a s) = pf a /\ I (snd (f a s))) ->
  forall l s, I s -> fst (mapM f l s) = collect (map pf l) /\ I (snd (mapM f l s)).
Proof.
  intros Hf l. induction l as [|a l IH]; intros s Hs; [done|].
  cbn. unfold bind. destruct (Hf a s Hs) as [Ha Hs'].
  destruct (f a s) as [[b|e] s']; cbn in Ha, Hs'; rewrite <- Ha; [|done].
  destruct (IH s' Hs') as [Hl Hs''].
  destruct (mapM f l s') as [[bs|e] s'']; cbn in Hl, Hs''; by rewrite <- Hl.
Qed.

Lemma collect_Forall2 {A B} (pf : A -> result B) l out :
  collect (map pf l) = Return out -> Forall2 (fun a b => pf a = Return b) l out.
Proof.
  revert out. induction l as [|a l IH]; intros out; cbn.
  - intros [= <-]. constructor.
  - destruct (pf a) as [b|e] eqn:Ea; [|done].
    destruct (collect (map pf l)) as [bs|e]; [|done].
    intros [= <-]. constructor; [done|]. by apply IH.
Qed.

Lemma collect_returns {A B} (pf : A -> result B) l :
  (forall a, a ∈ l -> exists b, pf a = Return b) ->
  exists out, collect (map pf l) = Return out.
Proof.
  induction l as [|a l IH]; intros H; cbn; [by eexists|].
  destruct (H a) as [b ->]; [apply list_elem_of_here|].
  destruct IH as [bs ->]; [|by eexists].
  intros a' Ha'. apply H. by apply list_elem_of_further.
Qed.

Lemma bind_eq {A B} (c : M A) (k : A -> M B) s :
  bind c k s =
    match c s with
    | (Return a, s') => k a s'
    | (Raise e, s') => (Raise e, s')
    end.
Proof. reflexivity. Qed.

Lemma elem_of_concat {A} (x : A) (ll : list (list A)) :
  x ∈ concat ll <-> exists l, l ∈ ll /\ x ∈ l.
Proof.
  rewrite list_elem_of_In, in_concat. split.
  - intros (l & Hl & Hx). exists l. by rewrite !list_elem_of_In.
  - intros (l & Hl & Hx). exists l. by rewrite <- !list_elem_of_In.
Qed.

(** The conversion of the answers to the type of the first one. *)

Lemma row_found row : forallb found row = false <-> None ∈ row.
Proof.
  induction row as [|o row IH]; cbn.
  - split; [done|]. intros H. by apply elem_of_nil in H.
  - destruct o as [v|]; cbn.
    + rewrite IH. split; [by apply list_elem_of_further|].
      intros H. by apply elem_of_cons in H as [|H].
    + split; [intros _; apply list_elem_of_here|done].
Qed.

Lemma rows_found out :
  forallb (forallb found) out = false <-> exists row, row ∈ out /\ None ∈ row.
Proof.
  induction out as [|row out IH]; cbn.
  - split; [done|]. intros (row & H & _). by apply elem_of_nil in H.
  - destruct (forallb found row) eqn:Hrow; cbn.
    + rewrite IH. split.
      * intros (row' & H1 & H2). exists row'. split; [|done].
        by apply list_elem_of_further.
      * intros (row' & H1 & H2). apply elem_of_cons in H1 as [->|H1].
        -- apply row_found in H2. congruence.
        -- by exists row'.
    + split; [|done]. intros _. exists row. split; [apply list_elem_of_here|].
      by apply row_found.
Qed.

Lemma converted_return first outputs out :
  converted first outputs = Return out ->
  out = outputs /\
  ((exists row, row ∈ out /\ None ∈ row) -> first = None).
Proof.
  unfold converted. destruct first as [v|]; [|by intros [= <-]].
  destruct (forallb (forallb found) outputs) eqn:E; [|done].
  intros [= <-]. split; [done|]. intros H. apply rows_found in H. congruence.
Qed.

Lemma converted_type_error first outputs :
  converted first outputs = Raise TypeError <->
  (exists v, first = Some v) /\ exists row, row ∈ outputs /\ None ∈ row.
Proof.
  unfold converted. destruct first as [v|].
  - destruct (forallb (forallb found) outputs) eqn:E.
    + split; [done|]. intros [_ H]. apply rows_found in H. congruence.
    + split; [|done]. intros _. split; [by exists v|]. by apply rows_found.
  - split; [done|]. by intros [[v [=]] _].
Qed.

Lemma converted_cases first outputs :
  converted first outputs = Return outputs \/
  converted first outputs = Raise TypeError.
Proof.
  unfold converted. destruct first; [|by left].
  destruct (forallb _ _); by auto.
Qed.

(** The answers of the cells against the answers of the solver. *)

Lemma answers_Forall2 t g rows out :
  answers t g rows = Return out ->
  Forall2 (Forall2 (fun c o => solve (cell_depth c) t g = Return o)) rows out.
Proof.
  intros Eo. apply collect_Forall2 in Eo.
  eapply Forall2_impl; [apply Eo|]. intros row orow Hrow.
  by apply collect_Forall2 in Hrow.
Qed.

Lemma Forall2_rows_elem {A B} (P : A -> B -> Prop) rows out :
  Forall2 (Forall2 P) rows out ->
  (forall a, a ∈ concat rows -> exists b, b ∈ concat out /\ P a b) /\
  (forall b, b ∈ concat out -> exists a, a ∈ concat rows /\ P a b).
Proof.
  intros H. split.
  - intros a Ha. apply elem_of_concat in Ha as (row & Hrow & Ha).
    apply list_elem_of_lookup in Hrow as [i Hi].
    destruct (Forall2_lookup_l _ _ _ _ _ H Hi) as (orow & Ho & Hr).
    apply list_elem_of_lookup in Ha as [j Hj].
    destruct (Forall2_lookup_l _ _ _ _ _ Hr Hj) as (b & Hb & Hab).
    exists b. split; [|done]. apply elem_of_concat. exists orow.
    split; by eapply list_elem_of_lookup_2.
  - intros b Hb. apply elem_of_concat in Hb as (orow & Horow & Hb).
    apply list_elem_of_lookup in Horow as [i Hi].
    destruct (Forall2_lookup_r _ _ _ _ _ H Hi) as (row & Hrow & Hr).
    apply list_elem_of_lookup in Hb as [j Hj].
    destruct (Forall2_lookup_r _ _ _ _ _ Hr Hj) as (a & Ha & Hab).
    exists a. split; [|done]. apply elem_of_concat. exists row.
    split; by eapply list_elem_of_lookup_2.
Qed.

(** An output holds [None] exactly when some cell is unsolvable. *)
Lemma answers_unsolvable t g rows out :
  answers t g rows = Return out ->
  (exists row, row ∈ out /\ None ∈ row) <->
  (exists c, c ∈ concat rows /\ solve (cell_depth c) t g = Return None).
Proof.
  intros Eo. apply answers_Forall2 in Eo.
  destruct (Forall2_rows_elem _ _ _ Eo) as [Hl Hr]. split.
  - intros H. apply elem_of_concat in H.
    destruct (Hr None H) as (c & Hc & Hs). by exists c.
  - intros (c & Hc & Hs). apply elem_of_concat.
    destruct (Hl c Hc) as (o & Ho & Hso). rewrite Hs in Hso.
    by injection Hso as <-.
Qed.

Lemma vectorize_joides a t g s :
  memo_ok t g (memoize_dict s) ->
  fst (vectorize joides a t g s) =
    match concat a with
    | [] => Raise ValueError
    | x0 :: _ =>
        match solve x0 t g with
        | Raise e => Raise e
        | Return first =>
            match collect (map (fun row => collect (map (fun d => solve d t g) row)) a) with
            | Raise e => Raise e
            | Return outputs => converted first outputs
            end
        end
    end /\
  memo_ok t g (memoize_dict (snd (vectorize joides a t g s))).
Proof.
  intros Hok. unfold vectorize. destruct (concat a) as [|x0 rest]; [done|].
  rewrite bind_eq. destruct (joides_memo_ok x0 t g s Hok) as [Hfirst Hok1].
  destruct (joides x0 t g s) as [[first|e] s1]; cbn [fst snd] in Hfirst, Hok1;
    rewrite <- Hfirst; [|done].
  rewrite bind_eq.
  destruct (mapM_spec (mapM (fun d => joides d t g))
              (fun row => collect (map (fun d => solve d t g) row))
              (fun s => memo_ok t g (memoize_dict s))) with (l := a) (s := s1)
    as [Hout Hok2]; [|done|].
  { intros row s' Hs'.
    apply (mapM_spec _ _ (fun s => memo_ok t g (memoize_dict s))); [|done].
    intros d s'' Hs''. by apply joides_memo_ok. }
  destruct (mapM _ a s1) as [[outputs|e] s2]; cbn [fst snd] in Hout, Hok2;
    rewrite <- Hout; done.
Qed.

Lemma astype_int_cells r :
  astype_int (RasterToNumPyArray r 99999) = map (map cell_depth) (cells r).
Proof.
  unfold astype_int, RasterToNumPyArray. rewrite map_map.
  apply map_ext. intros row. rewrite map_map. by apply map_ext.
Qed.

Lemma evaluate_eq r t g s :
  memo_ok t g (memoize_dict s) ->
  fst (evaluate r t g s) = run_result t g r.
Proof.
  intros Hok. unfold evaluate, run_result, answers.
  destruct (_ || _); [done|]. cbv zeta.
  unfold bind. rewrite astype_int_cells.
  destruct (vectorize_joides (map (map cell_depth) (cells r)) t g s Hok)
    as [Hout Hok'].
  rewrite <- concat_map, map_map in Hout.
  rewrite (map_ext _ (fun row => collect (map (fun c => solve (cell_depth c) t g) row)))
    in Hout by (intros row; by rewrite map_map).
  destruct (vectorize joides _ t g s) as [[out|e] s'];
    cbn [fst snd] in Hout, Hok'; cbn [fst];
    (destruct (concat (cells r)) as [|c0 rest]; cbn [map] in Hout; [congruence|]);
    (destruct (solve (cell_depth c0) t g) as [first|e1]; [|congruence]);
    (destruct (collect _) as [outputs|e2]; [|congruence]);
    rewrite <- Hout; [|done].
  destruct (joides_memo_ok 99999 t g s' Hok') as [Hnd _].
  destruct (joides 99999 t g s') as [[nd|e] s'']; cbn in Hnd; by rewrite <- Hnd.
Qed.

Lemma run_tool_eq r t g : run_tool r t g = run_result t g r.
Proof. apply evaluate_eq, memo_ok_empty. Qed.

(** A run that returns gives every cell the solver's answer for its depth,
    and the solver's answer for 99999 as no-data value; and the answers went
    through the conversion to the type of the first one. *)
Lemma run_tool_return r t g out nd :
  run_tool r t g = Return (out, nd) ->
  Forall2 (Forall2 (fun c o => solve (cell_depth c) t g = Return o))
          (cells r) out /\
  solve 99999 t g = Return nd.
Proof.
  rewrite run_tool_eq. unfold run_result. destruct (_ || _); [done|].
  destruct (concat (cells r)) as [|c0 rest]; [done|].
  destruct (solve (cell_depth c0) t g) as [first|e]; [|done].
  destruct (answers t g (cells r)) as [outputs|e] eqn:Eo; [|done].
  destruct (converted first outputs) as [out'|e] eqn:Ec; [|done].
  destruct (solve 99999 t g) as [nd'|e]; [|done].
  intros [= <- <-]. split; [|done].
  apply converted_return in Ec as [-> _]. by apply answers_Forall2.
Qed.


(** A run in which every call of the solver returns: it ends in [TypeError]
    when the first cell has an answer and some cell has none, and returns
    otherwise. *)
Lemma run_tool_cases r t g c0 rest :
  Rltb (minimum r) 0 || Rltb (maximum r) 0 = false ->
  concat (cells r) = c0 :: rest ->
  (forall c, c ∈ concat (cells r) -> exists o, solve (cell_depth c) t g = Return o) ->
  (exists nd, solve 99999 t g = Return nd) ->
  (run_tool r t g = Raise TypeError <->
     (exists v, solve (cell_depth c0) t g = Return (Some v)) /\
     (exists c, c ∈ concat (cells r) /\ solve (cell_depth c) t g = Return None)) /\
  (run_tool r t g = Raise TypeError \/
   exists out nd, run_tool r t g = Return (out, nd)).
Proof.
  intros Hguard Hc0 Hall [nd Hnd].
  rewrite run_tool_eq. unfold run_result. rewrite Hguard, Hc0.
  destruct (Hall c0) as [first Hfirst]; [rewrite Hc0; apply list_elem_of_here|].
  rewrite Hfirst.
  destruct (collect_returns
              (fun row => collect (map (fun c => solve (cell_depth c) t g) row))
              (cells r)) as [outputs Hout].
  { intros row Hrow. apply collect_returns. intros c Hc.
    apply Hall, elem_of_concat. by exists row. }
  fold (answers t g (cells r)) in Hout. rewrite Hout, Hnd.
  pose proof (answers_unsolvable t g (cells r) outputs Hout) as Huns.
  rewrite Hc0 in Huns.
  pose proof (converted_type_error first outputs) as Hte.
  destruct (converted_cases first outputs) as [Ec|Ec]; rewrite Ec.
  - split; [|right; by eexists _, _]. split; [done|].
    intros [[v [= ->]] Hnone]. exfalso.
    assert (Hraise : converted (Some v) outputs = Raise TypeError)
      by (apply Hte; split; [by exists v|by apply Huns]).
    congruence.
  - split; [|by left]. split; [|done]. intros _.
    destruct (proj1 Hte Ec) as [[v ->] Hnone]. split; [by exists v|].
    by apply Huns.
Qed.

(** ** Unsolvable cells and the no-data value (C4) *)

Lemma solve_negative_raises d t g : d < 0 -> solve d t g = Raise ValueError.
Proof.
  intros Hd. rewrite solve_eq.
  assert (E : outer_out d t g 1 = Raise ValueError).
  { unfold outer_out, py_log, log_arg.
    assert (IZR (d + 1) <= 0)%R by (apply IZR_le; lia).
    destruct (Rlt_dec _ _) as [H'|H']; [lra|done]. }
  unfold search_out. rewrite (range_first _ 1 2501 1); [by rewrite E|lia| |by rewrite E].
  intros z' Hz'. lia.
Qed.

(** A search that finds nothing went through the whole inner scan. *)
Lemma search_next_inner d t g :
  0 <= d -> search_out d t g = Return Next ->
  forall z2, 1 <= z2 <= 2500 -> rejected2 d t g z2.
Proof.
  intros Hd Hs z2 Hz2.
  assert (Ho : outer_out d t g 2500 = Return Next)
    by (eapply range_next_inv; [done|lia]).
  assert (Hsw : switches d 2500).
  { unfold switches. pose proof (pressure_log_lower d 2500 2500 ltac:(lia)).
    pose proof ln_25425_lower. lra. }
  rewrite outer_out_switches in Ho; [|apply log_arg_pos; lia|done].
  apply inner_out_next_inv. eapply range_next_inv; [done|lia].
Qed.




Lemma solve_0_4_5 : solve 0 4 5 = Return (Some 1).
Proof.
  rewrite solve_eq, (search_first_branch 0 4 5 ltac:(lia) 1); [done|lia| |].
  - intros z' Hz'. lia.
  - unfold accepted1, pressure_log, curve1, kelvin. change (0 + 1)%Z with 1%Z.
    pose proof ln_10. repeat split; lra.
Qed.

Lemma run_tool_0_2000_4_5 : run_tool raster_0_2000 4 5 = Raise TypeError.
Proof.
  rewrite run_tool_eq. unfold run_result, raster_0_2000.
  cbn [minimum maximum cells concat app].
  unfold Rltb. destruct (Rlt_dec 0 0) as [H|_]; [lra|].
  destruct (Rlt_dec 2000 0) as [H|_]; [lra|]. cbn [orb].
  unfold answers. cbn [map collect].
  by rewrite (cell_depth_IZR 0 ltac:(lia)), (cell_depth_IZR 2000 ltac:(lia)),
    solve_0_4_5, solve_2000_4_5.
Qed.



(** ** The no-data value under typical parameters (C3) *)

Lemma first_crossing (P : Z -> Prop) (lo hi : Z) :
  (forall z, P z \/ ~ P z) -> lo <= hi -> ~ P lo -> P hi ->
  exists k, lo < k <= hi /\ ~ P (k - 1) /\ P k.
Proof.
  intros Hdec Hle.
  replace hi with (lo + Z.of_nat (Z.to_nat (hi - lo))) by lia.
  clear Hle. generalize (Z.to_nat (hi - lo)) as n. intros n. revert lo.
  induction n as [|n IH]; intros lo Hlo Hhi.
  - exfalso. apply Hlo. by rewrite Z.add_0_r in Hhi.
  - destruct (Hdec (lo + 1)) as [H1|H1].
    + exists (lo + 1). split; [lia|]. split; [|done].
      by replace (lo + 1 - 1) with lo by lia.
    + destruct (IH (lo + 1) H1) as (k & Hk & Hk1 & Hk2).
      * by replace (lo + 1 + Z.of_nat n) with (lo + Z.of_nat (S n)) by lia.
      * exists k. split; [lia|done].
Qed.

(** A search ends at the latest at a candidate that passes whichever test it
    meets. *)

Section FoundBy.
Variables (d : Z) (t g : R) (k : Z).
Hypothesis depth_nonneg : 0 <= d.
Hypothesis k_candidate : 1 <= k <= 2500.
Hypothesis kelvin_nonzero : forall z, 1 <= z <= 2500 -> kelvin t g z <> 0%R.
Hypothesis passes2 : accepted2 d t g k.
Hypothesis passes1 : (pressure_log d k <= 9.355001)%R -> accepted1 d t g k.

Lemma inner_found_by : exists v, 1 <= v <= k /\ inner_res d t g = Return (Ret v).
Proof.
  assert (E : inner_out d t g k = Return (Ret k))
    by (apply inner_out_accepted; [apply log_arg_pos; lia|done]).
  destruct (range_exits_by (inner_out d t g) 1 2501 k) as (z & Hz & _ & Hhit & Hres);
    [lia|by rewrite E|].
  exists z. split; [lia|]. unfold inner_res. rewrite Hres.
  revert Hhit. unfold inner_out.
  rewrite py_log_pos by (apply log_arg_pos; lia).
  rewrite below_curve2_eq by (apply kelvin_nonzero; lia).
  by destruct (Rlt_dec _ _).
Qed.

Lemma search_found_by : exists v, 1 <= v <= k /\ search_out d t g = Return (Ret v).
Proof.
  destruct inner_found_by as (v2 & Hv2 & Hin).
  assert (Hpos : forall z, 1 <= z -> (0 < log_arg d z)%R)
    by (intros; by apply log_arg_pos).
  assert (Hk : outer_out d t g k <> Return Next).
  { destruct (Rle_lt_dec (pressure_log d k) 9.355001) as [Hle|Hgt].
    - rewrite outer_out_accepted; [done|apply Hpos; lia|auto].
    - rewrite outer_out_switches, Hin; [done|apply Hpos; lia|done]. }
  destruct (range_exits_by (outer_out d t g) 1 2501 k) as (z & Hz & _ & Hhit & Hres);
    [lia|done|].
  unfold search_out. rewrite Hres. revert Hhit. unfold outer_out.
  rewrite py_log_pos by (apply Hpos; lia).
  destruct (Rgt_dec _ _).
  - intros _. exists v2. split; [lia|done].
  - rewrite below_curve1_eq by (apply kelvin_nonzero; lia).
    destruct (Rlt_dec _ _); [|done]. intros _. exists z. split; [lia|done].
Qed.
End FoundBy.

Section Typical.
Variables (t g : R).
Hypothesis typical_parameters : typical t g.

Local Open Scope R_scope.

Lemma kelvin_typical z : (0 <= z)%Z -> 273.15 <= kelvin t g z.
Proof.
  intros Hz. destruct typical_parameters as [Ht Hg].
  apply IZR_le in Hz. unfold kelvin. nra.
Qed.

Lemma kelvin_typical_nonzero z : (1 <= z <= 2500)%Z -> kelvin t g z <> 0.
Proof. intros Hz. pose proof (kelvin_typical z ltac:(lia)). lra. Qed.

(** The candidate at which the temperature passes 305 K. *)
Lemma crossing_305 :
  exists k, (1 < k <= 2500)%Z /\
    kelvin t g (k - 1) < 305 /\ 305 <= kelvin t g k < 305.1.
Proof.
  destruct typical_parameters as [Ht Hg].
  destruct (first_crossing (fun z => 305 <= kelvin t g z) 1 2500)
    as (k & Hk & Hbelow & Habove).
  - intros z. destruct (Rle_lt_dec 305 (kelvin t g z)); [by left|right; lra].
  - lia.
  - unfold kelvin. lra.
  - unfold kelvin. lra.
  - exists k. split; [done|]. split; [lra|]. split; [done|].
    revert Hbelow. unfold kelvin. rewrite minus_IZR. nra.
Qed.

(** At and before the crossing. *)

Lemma curves_at_crossing k :
  305 <= kelvin t g k -> 11.5 <= curve2 t g k /\ 11 <= curve1 t g k.
Proof.
  intros Hk. split.
  - pose proof (curve2_lower t g k 305 ltac:(lra)). lra.
  - pose proof (curve1_lower t g k 305 ltac:(lra)). lra.
Qed.

Lemma curve2_before_crossing k z :
  kelvin t g k < 305.1 -> (1 <= z <= k)%Z -> curve2 t g z < 12.
Proof.
  intros Hk Hz. destruct typical_parameters as [Ht Hg].
  pose proof (kelvin_typical z ltac:(lia)).
  pose proof (kelvin_mono t g z k ltac:(lra) ltac:(lia)).
  pose proof (curve2_upper t g z 305.1 ltac:(lra)). lra.
Qed.

(** Depths 0..2500 find a candidate by the crossing. *)
Lemma depth_found_by_crossing d k :
  (0 <= d <= 2500)%Z -> (1 <= k <= 2500)%Z -> 305 <= kelvin t g k ->
  exists v, (1 <= v <= k)%Z /\ solve d t g = Return (Some v).
Proof.
  intros Hd Hk Hcross. destruct (curves_at_crossing k Hcross) as [Hc2 Hc1].
  assert (Hlog : pressure_log d k < 11.5).
  { pose proof (pressure_log_upper d k 5000 ltac:(lia)).
    pose proof ln_50850_upper. lra. }
  destruct (search_found_by d t g k) as (v & Hv & Hs); try done; try lia.
  - apply kelvin_typical_nonzero.
  - split; [apply kelvin_typical_nonzero; lia|lra].
  - intros Hle. split; [done|]. split; [apply kelvin_typical_nonzero; lia|lra].
  - exists v. split; [done|]. by rewrite solve_eq, Hs.
Qed.

(** The no-data depth finds nothing up to the crossing. *)
Lemma sentinel_beyond_crossing k v :
  (1 <= k <= 2500)%Z -> kelvin t g k < 305.1 ->
  solve 99999 t g = Return (Some v) -> (k < v)%Z.
Proof.
  intros Hk Hcross. rewrite solve_eq.
  destruct (search_out 99999 t g) as [[|v']|e] eqn:Es; try done.
  intros [= ->]. apply search_out_ret_inv in Es as (Hv & _ & Hacc).
  pose proof (switches_99999 v ltac:(lia)) as Hsw. unfold switches in Hsw.
  destruct Hacc as [[Hle _]|[_ Hlt]]; [lra|].
  destruct (Z_lt_le_dec k v) as [|Hvk]; [done|exfalso].
  pose proof (curve2_before_crossing k v Hcross ltac:(lia)).
  pose proof (pressure_log_lower 99999 v 100000 ltac:(lia)).
  pose proof ln_1017000_lower. lra.
Qed.

Lemma no_collision d o nd :
  (0 <= d <= 2500)%Z ->
  solve d t g = Return o -> solve 99999 t g = Return nd -> o <> nd.
Proof.
  intros Hd Ho Hnd. destruct crossing_305 as (k & Hk & _ & Hk1 & Hk2).
  destruct (depth_found_by_crossing d k Hd ltac:(lia) Hk1) as (v & Hv & Hs).
  rewrite Hs in Ho. injection Ho as <-. intros <-.
  pose proof (sentinel_beyond_crossing k v ltac:(lia) Hk2 Hnd). lia.
Qed.

(** Every depth of the practical range has an answer, the no-data depth has
    an answer or [None], and the two differ. *)
Lemma practical_depth_apart d :
  (0 <= d <= 2500)%Z ->
  exists v nd, solve d t g = Return (Some v) /\
    solve 99999 t g = Return nd /\ nd <> Some v.
Proof.
  intros Hd. destruct crossing_305 as (k & Hk & _ & Hk1 & _).
  destruct (depth_found_by_crossing d k Hd ltac:(lia) Hk1) as (v & _ & Hs).
  destruct (solve_returns 99999 t g ltac:(lia) kelvin_typical_nonzero)
    as [nd Hnd].
  exists v, nd. split; [exact Hs|]. split; [exact Hnd|].
  intros ->. by apply (no_collision d (Some v) (Some v) Hd Hs Hnd).
Qed.
End Typical.

(** At 4 degrees and 30 degrees per km the no-data depth has an answer. *)

Lemma ln_1042415_upper : (ln (10.17 * IZR 102499) < 16)%R.
Proof.
  replace 16%R with (IZR 16 / IZR 1)%R by lra.
  apply (ln_lt_frac _ 104241483 100 16 1 128); try lia; try lra.
  by vm_compute.
Qed.

Lemma solve_99999_4_30 : exists v, solve 99999 4 30 = Return (Some v).
Proof.
  assert (Htyp : typical 4 30) by (unfold typical; lra).
  destruct (search_found_by 99999 4 30 2500) as (v & _ & Hs); try lia.
  - apply (kelvin_typical_nonzero 4 30 Htyp).
  - split; [apply (kelvin_typical_nonzero 4 30 Htyp); lia|].
    pose proof ln_1042415_upper as Hln.
    unfold pressure_log, curve2, kelvin.
    change (99999 + 2500) with 102499. lra.
  - intros Hle. pose proof (switches_99999 2500 ltac:(lia)) as Hsw.
    unfold switches in Hsw. lra.
  - exists v. by rewrite solve_eq, Hs.
Qed.

Lemma run_tool_1000_nodata_4_30 :
  exists out nd, run_tool raster_1000_nodata 4 30 = Return (out, nd).
Proof.
  assert (Htyp : typical 4 30) by (unfold typical; lra).
  destruct (crossing_305 4 30 Htyp) as (k & Hk & _ & Hk1 & _).
  destruct (depth_found_by_crossing 4 30 Htyp 1000 k ltac:(lia) ltac:(lia) Hk1)
    as (v & _ & Hv).
  destruct solve_99999_4_30 as [w Hw].
  exists [[Some v; Some w]], (Some w).
  rewrite run_tool_eq. unfold run_result, raster_1000_nodata.
  cbn [minimum maximum cells concat app].
  unfold Rltb. destruct (Rlt_dec 1000 0) as [H|_]; [lra|]. cbn [orb].
  unfold answers. cbn [map collect].
  by rewrite (cell_depth_IZR 1000 ltac:(lia)), cell_depth_nodata, Hv, Hw.
Qed.

(** C3.  Whenever a run returns, its no-data value is the solver's answer for
    99999, and every cell equal to the no-data input (a NoData cell, or a
    data cell of the value 99999) holds exactly that value; for typical
    parameters no data cell with a value in 0..2500 holds it.  Apart from
    runs: for typical parameters every depth in 0..2500 has an answer, and
    the answer for 99999 is another one, or [None]. *)
Theorem sentinel_round_trip r t g :
  (forall out nd, run_tool r t g = Return (out, nd) ->
     solve 99999 t g = Return nd /\
     Forall2 (Forall2 (fun c o => c = None \/ c = Some 99999%R -> o = nd))
             (cells r) out /\
     (typical t g ->
      Forall2 (Forall2 (fun c o =>
                 forall x, c = Some x -> (0 <= x <= 2500)%R -> o <> nd))
              (cells r) out)) /\
  (typical t g -> forall d, 0 <= d <= 2500 ->
     exists v nd, solve d t g = Return (Some v) /\
       solve 99999 t g = Return nd /\ nd <> Some v).
Proof.
  split.
  - intros out nd Hrun. apply run_tool_return in Hrun as [Hcells Hnd].
    split; [done|]. split.
    + eapply Forall2_impl; [apply Hcells|]. intros row orow Hrow.
      eapply Forall2_impl; [apply Hrow|]. intros c o Hc Hd. cbv beta in Hc.
      assert (Hdepth : cell_depth c = 99999).
      { destruct Hd as [-> | ->]; [apply cell_depth_nodata|].
        apply cell_depth_IZR. lia. }
      rewrite Hdepth, Hnd in Hc. by injection Hc.
    + intros Htyp.
      eapply Forall2_impl; [apply Hcells|]. intros row orow Hrow.
      eapply Forall2_impl; [apply Hrow|]. intros c o Hc x -> Hx.
      cbv beta in Hc.
      apply (no_collision t g Htyp (cell_depth (Some x)) o nd); [|done|done].
      by apply cell_depth_practical.
  - intros Htyp d Hd. by apply practical_depth_apart.
Qed.

(** A raster with one cell of depth 1000 and one NoData cell, at 4 degrees
    and 30 degrees per km: the run returns, the NoData cell holds the
    no-data value and the cell of depth 1000 another one; and the depth 1000
    by itself. *)
Lemma sentinel_round_trip_witness :
  (exists out nd,
     run_tool raster_1000_nodata 4 30 = Return (out, nd) /\
     solve 99999 4 30 = Return nd /\
     Forall2 (Forall2 (fun c o => c = None \/ c = Some 99999%R -> o = nd))
             (cells raster_1000_nodata) out /\
     Forall2 (Forall2 (fun c o =>
                forall x, c = Some x -> (0 <= x <= 2500)%R -> o <> nd))
             (cells raster_1000_nodata) out) /\
  typical 4 30 /\ 0 <= 1000 <= 2500 /\
  exists v nd, solve 1000 4 30 = Return (Some v) /\
    solve 99999 4 30 = Return nd /\ nd <> Some v.
Proof.
  assert (Htyp : typical 4 30) by (unfold typical; lra).
  split.
  - destruct run_tool_1000_nodata_4_30 as (out & nd & Hrun).
    exists out, nd. split; [exact Hrun|].
    destruct (proj1 (sentinel_round_trip raster_1000_nodata 4 30) out nd Hrun)
      as (Hnd & Hcells & Hapart).
    split; [exact Hnd|]. split; [exact Hcells|]. exact (Hapart Htyp).
  - split; [exact Htyp|]. split; [lia|].
    apply (proj2 (sentinel_round_trip raster_1000_nodata 4 30) Htyp 1000). lia.
Defined.

(** ** Counterexamples for the solver *)

(** Against C1 as stated.  The dictionary left by a call at depth 2000 with a
    bottom-water temperature of 30 degrees holds the entry 2000 -> 1; a later
    call at the same depth with 4 degrees returns that entry, although with
    the dictionary cleared it finds a candidate beyond 1. *)
Lemma stale_cache_changes_result :
  produced (snd (joides 2000 30 30 init_state)) /\
  fst (joides 2000 4 30 (snd (joides 2000 30 30 init_state))) = Return (Some 1) /\
  exists v,
    fst (joides 2000 4 30 (cleared (snd (joides 2000 30 30 init_state))))
      = Return (Some v) /\ 1 < v.
Proof.
  split; [apply produced_call; by apply produced_clear|].
  split.
  - rewrite joides_init.
    pose proof solve_2000_30_30 as H. rewrite solve_eq in H.
    destruct (search_out 2000 30 30) as [[|v]|e]; [done| |done].
    injection H as ->. rewrite joides_eq. unfold snd, memoize_dict, stored.
    by rewrite lookup_insert_eq.
  - rewrite joides_cleared.
    assert (Htyp : typical 4 30) by (unfold typical; lra).
    destruct (crossing_305 4 30 Htyp) as (k & Hk & _ & Hk1 & _).
    destruct (depth_found_by_crossing 4 30 Htyp 2000 k ltac:(lia) ltac:(lia) Hk1)
      as (v & Hv & Hs).
    exists v. split; [done|].
    destruct (decide (v = 1)) as [->|]; [|lia].
    by destruct solve_2000_4_30_not_1.
Qed.

(** Against C8 as stated.  The solver has no guard of its own.  With a
    negative water depth the logarithm's argument is not positive at the
    first candidate, and the call ends in [ValueError]; at a bottom-water
    temperature of -273.15 degrees without gradient the first curve divides
    by zero at the first candidate, and the call ends in
    [ZeroDivisionError].  Neither is a result or [None]. *)
Lemma solver_can_raise :
  fst (joides (-1) 4 30 init_state) = Raise ValueError /\
  fst (joides 0 (-273.15) 0 init_state) = Raise ZeroDivisionError.
Proof.
  split.
  - rewrite joides_init. unfold fst. by rewrite <- solve_eq, solve_negative_raises.
  - assert (E : outer_out 0 (-273.15) 0 1 = Raise ZeroDivisionError).
    { unfold outer_out. rewrite py_log_pos by (apply log_arg_pos; lia).
      unfold log_arg. change (0 + 1) with 1. pose proof ln_10.
      destruct (Rgt_dec _ _); [lra|].
      unfold below_curve, py_div, kelvin.
      destruct (Req_dec_T _ _) as [_|Hne]; [done|]. exfalso. apply Hne. lra. }
    rewrite joides_init. unfold fst, search_out.
    rewrite (range_first _ 1 2501 1); [by rewrite E|lia| |by rewrite E].
    intros z' Hz'. lia.
Qed.

(** * Further properties of the solver and of the script *)

(** ** Sharp bounds on the logarithm

    Powers [(1 + c/n)^n] with [n = 2^m] are bounded from below by [m]
    squarings in fixed-point arithmetic, rounded down. *)

Section SharpLnBounds.
Local Open Scope R_scope.

Lemma sq_down_sound (S : Z) (k : nat) (a : Z) (y : R) :
  (0 < S)%Z -> (0 <= a)%Z -> IZR a / IZR S <= y ->
  (0 <= sq_down S k a)%Z /\ IZR (sq_down S k a) / IZR S <= y ^ (2 ^ k).
Proof.
  intros HS. revert a y. induction k as [|k IH]; intros a y Ha Hy.
  - cbn. split; [done|]. lra.
  - assert (HS' : 0 < IZR S) by (by apply IZR_lt).
    assert (Ha' : 0 <= IZR a) by (by apply IZR_le).
    assert (Hq : 0 <= IZR a / IZR S).
    { apply Rmult_le_pos; [done|]. left. by apply Rinv_0_lt_compat. }
    assert (Hdiv : (0 <= a * a / S)%Z) by (apply Z.div_pos; nia).
    assert (Hfloor : IZR (a * a / S) * IZR S <= IZR a * IZR a).
    { rewrite <- !mult_IZR. apply IZR_le.
      pose proof (Z.mul_div_le (a * a) S HS). lia. }
    assert (Hsq : IZR (a * a / S) / IZR S <= y ^ 2).
    { apply Rle_trans with ((IZR a / IZR S) ^ 2).
      - apply (Rmult_le_reg_r (IZR S * IZR S)); [nra|].
        replace (IZR (a * a / S) / IZR S * (IZR S * IZR S))
          with (IZR (a * a / S) * IZR S) by (field; lra).
        replace ((IZR a / IZR S) ^ 2 * (IZR S * IZR S))
          with (IZR a * IZR a) by (field; lra).
        done.
      - apply pow_incr. lra. }
    destruct (IH (a * a / S)%Z (y ^ 2) Hdiv Hsq) as [H1 H2].
    split; [done|]. cbn [sq_down].
    replace (2 ^ Datatypes.S k)%nat with (2 * 2 ^ k)%nat by (cbn; lia).
    by rewrite pow_mult.
Qed.

Lemma INR_pow2 (m : nat) : INR (2 ^ m) = IZR (2 ^ Z.of_nat m).
Proof. rewrite pow_INR, <- pow_IZR. done. Qed.

Lemma pow2_nat_pos (m : nat) : (0 < 2 ^ m)%nat.
Proof. induction m; cbn; lia. Qed.

(** [ln x < num/den]: with [n = 2^m], [a0/S <= 1 + c/n] and
    [x < sq_down S m a0 / S <= (1 + c/n)^n <= exp c]. *)
Lemma ln_lt_sq (x : R) (xa xb num den S a0 : Z) (m : nat) :
  0 < x -> (0 < xb)%Z -> (0 < den)%Z -> (0 <= num)%Z -> (0 < S)%Z ->
  (0 <=? a0)%Z = true ->
  x * IZR xb <= IZR xa ->
  (a0 * (den * 2 ^ Z.of_nat m) <=? (den * 2 ^ Z.of_nat m + num) * S)%Z = true ->
  (xa * S <? sq_down S m a0 * xb)%Z = true ->
  ln x < IZR num / IZR den.
Proof.
  intros Hx Hxb Hden Hnum HS Ha0 Hxa Hstart Hcmp. apply Z.leb_le in Ha0.
  apply Z.leb_le in Hstart. apply Z.ltb_lt in Hcmp.
  apply IZR_le in Hstart. apply IZR_lt in Hcmp.
  rewrite !mult_IZR, plus_IZR, !mult_IZR, <- INR_pow2 in Hstart.
  rewrite !mult_IZR in Hcmp.
  assert (Hxb' : 0 < IZR xb) by (by apply IZR_lt).
  assert (Hden' : 0 < IZR den) by (by apply IZR_lt).
  assert (Hnum' : 0 <= IZR num) by (by apply IZR_le).
  assert (HS' : 0 < IZR S) by (by apply IZR_lt).
  pose proof (pow2_nat_pos m) as Hn.
  assert (Hn' : 0 < INR (2 ^ m)) by (by apply lt_0_INR).
  set (n := (2 ^ m)%nat) in *. set (c := IZR num / IZR den).
  assert (Hc : 0 <= c).
  { apply Rmult_le_pos; [done|]. left. by apply Rinv_0_lt_compat. }
  assert (Hy0 : IZR a0 / IZR S <= 1 + c / INR n).
  { replace (1 + c / INR n) with ((IZR den * INR n + IZR num) / (IZR den * INR n))
      by (unfold c; field; lra).
    apply (Rmult_le_reg_r (IZR S * (IZR den * INR n)));
      [repeat apply Rmult_lt_0_compat; lra|].
    replace (IZR a0 / IZR S * (IZR S * (IZR den * INR n)))
      with (IZR a0 * (IZR den * INR n)) by (field; lra).
    replace ((IZR den * INR n + IZR num) / (IZR den * INR n) * (IZR S * (IZR den * INR n)))
      with ((IZR den * INR n + IZR num) * IZR S) by (field; lra).
    done. }
  destruct (sq_down_sound S m a0 _ HS Ha0 Hy0) as [_ Hbound]. fold n in Hbound.
  apply exp_lt_inv. rewrite exp_ln by done.
  eapply Rlt_le_trans; [|apply (exp_pow_lower c n Hn Hc)].
  eapply Rlt_le_trans; [|apply Hbound].
  apply (Rmult_lt_reg_r (IZR S * IZR xb)); [nra|].
  replace (IZR (sq_down S m a0) / IZR S * (IZR S * IZR xb))
    with (IZR (sq_down S m a0) * IZR xb) by (field; lra).
  nra.
Qed.

(** [num/den < ln x]: with [n = 2^m], [b0/S <= 1 - c/n] and
    [exp c <= (1 - c/n)^-n <= S / sq_down S m b0 < x]. *)
Lemma ln_gt_sq (x : R) (xa xb num den S b0 : Z) (m : nat) :
  (0 < xa)%Z -> (0 < xb)%Z -> (0 < den)%Z -> (0 <= num < den * 2 ^ Z.of_nat m)%Z ->
  (0 < S)%Z -> (0 <=? b0)%Z = true ->
  IZR xa <= x * IZR xb ->
  (b0 * (den * 2 ^ Z.of_nat m) <=? (den * 2 ^ Z.of_nat m - num) * S)%Z = true ->
  (S * xb <? xa * sq_down S m b0)%Z = true ->
  IZR num / IZR den < ln x.
Proof.
  intros Hxa Hxb Hden [Hnum Hlt] HS Hb0 Hx Hstart Hcmp. apply Z.leb_le in Hb0.
  apply Z.leb_le in Hstart. apply Z.ltb_lt in Hcmp.
  apply IZR_le in Hstart. apply IZR_lt in Hcmp. apply IZR_lt in Hlt.
  rewrite !mult_IZR, minus_IZR, !mult_IZR, <- INR_pow2 in Hstart.
  rewrite !mult_IZR in Hcmp. rewrite mult_IZR, <- INR_pow2 in Hlt.
  assert (Hxa' : 0 < IZR xa) by (by apply IZR_lt).
  assert (Hxb' : 0 < IZR xb) by (by apply IZR_lt).
  assert (Hden' : 0 < IZR den) by (by apply IZR_lt).
  assert (Hnum' : 0 <= IZR num) by (by apply IZR_le).
  assert (HS' : 0 < IZR S) by (by apply IZR_lt).
  assert (Hxpos : 0 < x) by nra.
  pose proof (pow2_nat_pos m) as Hn.
  assert (Hn' : 0 < INR (2 ^ m)) by (by apply lt_0_INR).
  set (n := (2 ^ m)%nat) in *. set (c := IZR num / IZR den).
  assert (Hc : 0 <= c < INR n).
  { split.
    - apply Rmult_le_pos; [done|]. left. by apply Rinv_0_lt_compat.
    - apply (Rmult_lt_reg_r (IZR den)); [done|]. unfold c, Rdiv.
      rewrite Rmult_assoc, Rinv_l by (apply Rgt_not_eq; lra). lra. }
  assert (Hy0 : IZR b0 / IZR S <= 1 - c / INR n).
  { replace (1 - c / INR n) with ((IZR den * INR n - IZR num) / (IZR den * INR n))
      by (unfold c; field; lra).
    apply (Rmult_le_reg_r (IZR S * (IZR den * INR n)));
      [repeat apply Rmult_lt_0_compat; lra|].
    replace (IZR b0 / IZR S * (IZR S * (IZR den * INR n)))
      with (IZR b0 * (IZR den * INR n)) by (field; lra).
    replace ((IZR den * INR n - IZR num) / (IZR den * INR n) * (IZR S * (IZR den * INR n)))
      with ((IZR den * INR n - IZR num) * IZR S) by (field; lra).
    done. }
  destruct (sq_down_sound S m b0 _ HS Hb0 Hy0) as [Hnonneg Hbound]. fold n in Hbound.
  pose proof (exp_pow_upper c n Hc) as Hup.
  pose proof (exp_pos c) as Hexp.
  set (B := IZR (sq_down S m b0)) in *.
  assert (HB : 0 < B) by nra.
  (* exp c * (B / S) <= exp c * (1 - c/n)^n <= 1 *)
  assert (H1 : exp c * (B / IZR S) <= 1).
  { eapply Rle_trans; [|apply Hup]. apply Rmult_le_compat_l; lra. }
  apply exp_lt_inv. rewrite exp_ln by done.
  assert (H2 : exp c * B <= IZR S).
  { apply (Rmult_le_compat_r (IZR S)) in H1; [|lra].
    replace (exp c * (B / IZR S) * IZR S) with (exp c * B) in H1 by (field; lra).
    lra. }
  apply (Rmult_lt_reg_r (B * IZR xb)); [nra|]. nra.
Qed.

Lemma ln_1136 : ln (10.17 * IZR 1136) < 9.355001.
Proof.
  replace 9.355001 with (IZR 9355001 / IZR 1000000) by lra.
  apply (ln_lt_sq _ 1155312 100 9355001 1000000 (2 ^ 80)
           (((1000000 * 2 ^ 20 + 9355001) * 2 ^ 80) / (1000000 * 2 ^ 20)) 20);
    try lia; try lra.
  - vm_compute. reflexivity.
  - vm_compute. reflexivity.
  - vm_compute. reflexivity.
Qed.

Lemma ln_1137 : 9.355001 < ln (10.17 * IZR 1137).
Proof.
  replace 9.355001 with (IZR 9355001 / IZR 1000000) by lra.
  apply (ln_gt_sq _ 1156329 100 9355001 1000000 (2 ^ 80)
           (((1000000 * 2 ^ 20 - 9355001) * 2 ^ 80) / (1000000 * 2 ^ 20)) 20);
    try lia; try lra.
  - vm_compute. reflexivity.
  - vm_compute. reflexivity.
  - vm_compute. reflexivity.
Qed.

Lemma ln_246 : ln (10.17 * IZR 246) < 7.8259.
Proof.
  replace 7.8259 with (IZR 78259 / IZR 10000) by lra.
  apply (ln_lt_sq _ 250182 100 78259 10000 (2 ^ 80)
           (((10000 * 2 ^ 20 + 78259) * 2 ^ 80) / (10000 * 2 ^ 20)) 20);
    try lia; try lra.
  - vm_compute. reflexivity.
  - vm_compute. reflexivity.
  - vm_compute. reflexivity.
Qed.
End SharpLnBounds.

(** ** Which curve a candidate meets *)

Lemma switches_from_1137 d z : 1137 <= d + z -> switches d z.
Proof.
  intros H. unfold switches.
  pose proof (pressure_log_lower d z 1137 ltac:(lia)). pose proof ln_1137. lra.
Qed.

Lemma first_branch_upto_1136 d z :
  1 <= d + z <= 1136 -> (pressure_log d z < 9.355001)%R.
Proof.
  intros H. pose proof (pressure_log_upper d z 1136 ltac:(lia)).
  pose proof ln_1136. lra.
Qed.

(** X1.  The threshold [a > 9.355001] is passed exactly from [d + z = 1137]
    on.  For a non-negative depth, a candidate with [d + z >= 1137] runs the
    inner scan and nothing else; a candidate with [d + z <= 1136] runs the
    first test and nothing else. *)
Theorem second_branch_from_1137 d t g z s :
  0 <= d -> 1 <= z ->
  (1137 <= d + z ->
   outer_body d t g z s =
     for_in (range 1 2501) (inner_body d t g)
       (State (memoize_dict s) (log_arg d z :: log_calls s))) /\
  (d + z <= 1136 ->
   outer_body d t g z s =
     (do q <- lift (py_div 8386.8 (kelvin t g z));
      if Rlt_dec (pressure_log d z) (38.53 - q) then
        exec memo_store d z;
        ret (Ret z)
      else ret Next)
       (State (memoize_dict s) (log_arg d z :: log_calls s))).
Proof.
  intros Hd Hz.
  assert (Hpos : (0 < log_arg d z)%R) by (by apply log_arg_pos).
  split; intros Hdz.
  - pose proof (switches_from_1137 d z Hdz) as Hsw.
    unfold switches, pressure_log in Hsw.
    unfold outer_body, bind at 1, math_log. fold (log_arg d z).
    rewrite py_log_pos by done. unfold log_arg at 1.
    by destruct (Rgt_dec _ _).
  - pose proof (first_branch_upto_1136 d z ltac:(lia)) as Hlt.
    unfold pressure_log in Hlt.
    unfold outer_body, bind at 1, math_log. fold (log_arg d z).
    rewrite py_log_pos by done. unfold log_arg at 1.
    destruct (Rgt_dec _ _); [lra|]. reflexivity.
Qed.

(** Depth 1000: candidate 137 is the first to run the inner scan. *)
Lemma second_branch_from_1137_witness :
  0 <= 1000 /\ 1 <= 136 /\ 1 <= 137 /\ 1137 <= 1000 + 137 /\
  1000 + 136 <= 1136 /\
  outer_body 1000 4 30 137 init_state =
    for_in (range 1 2501) (inner_body 1000 4 30)
      (State (memoize_dict init_state)
             (log_arg 1000 137 :: log_calls init_state)) /\
  outer_body 1000 4 30 136 init_state =
    (do q <- lift (py_div 8386.8 (kelvin 4 30 136));
     if Rlt_dec (pressure_log 1000 136) (38.53 - q) then
       exec memo_store 1000 136;
       ret (Ret 136)
     else ret Next)
      (State (memoize_dict init_state)
             (log_arg 1000 136 :: log_calls init_state)).
Proof.
  split; [lia|]. split; [lia|]. split; [lia|]. split; [lia|]. split; [lia|].
  split.
  - apply (proj1 (second_branch_from_1137 1000 4 30 137 init_state
                    ltac:(lia) ltac:(lia))). lia.
  - apply (proj2 (second_branch_from_1137 1000 4 30 136 init_state
                    ltac:(lia) ltac:(lia))). lia.
Defined.

(** ** What a returned candidate went through *)

Lemma outer_out_next_inv d t g z :
  outer_out d t g z = Return Next ->
  (0 < log_arg d z)%R /\
  (rejected1 d t g z \/ (switches d z /\ inner_res d t g = Return Next)).
Proof.
  intros Hout. unfold outer_out in Hout.
  destruct (py_log _) as [a|] eqn:El; [|done].
  apply py_log_return in El as [Hpos ->]. split; [done|]. revert Hout.
  destruct (Rgt_dec _ _) as [Hgt|Hle].
  - intros Hin. right. split; [|done]. unfold switches, pressure_log.
    by fold (log_arg d z).
  - intros Hb. apply below_curve_return in Hb as [Hk Hb].
    destruct (Rlt_dec _ _) as [|Hnlt]; [done|]. left.
    unfold rejected1, pressure_log, curve1. fold (log_arg d z).
    split; [lra|]. split; done.
Qed.

Lemma outer_out_ret_inv d t g z v :
  outer_out d t g z = Return (Ret v) ->
  (0 < log_arg d z)%R /\
  ((v = z /\ accepted1 d t g z) \/
   (switches d z /\ inner_res d t g = Return (Ret v))).
Proof.
  intros Hout. unfold outer_out in Hout.
  destruct (py_log _) as [a|] eqn:El; [|done].
  apply py_log_return in El as [Hpos ->]. split; [done|]. revert Hout.
  destruct (Rgt_dec _ _) as [Hgt|Hle].
  - intros Hin. right. split; [|done]. unfold switches, pressure_log.
    by fold (log_arg d z).
  - intros Hb. apply below_curve_return in Hb as [Hk Hb].
    destruct (Rlt_dec _ _) as [Hlt|]; [|done]. injection Hb as ->. left.
    split; [done|]. unfold accepted1, pressure_log, curve1. fold (log_arg d z).
    split; [lra|]. split; done.
Qed.

(** The candidates before the one that ended the outer scan with a value
    were all rejected by the first test. *)
Lemma before_a_value_rejected1 d t g z v :
  outer_out d t g z = Return (Ret v) ->
  (forall z', 1 <= z' < z -> outer_out d t g z' = Return Next) ->
  forall z', 1 <= z' < z -> rejected1 d t g z'.
Proof.
  intros Hz Hbefore z' Hz'.
  destruct (outer_out_next_inv d t g z' (Hbefore z' Hz')) as [Hpos [Hrej|[Hsw Hin]]];
    [done|].
  pose proof (failed_switch_repeats d t g z' z Hpos Hsw Hin ltac:(lia)) as Hnext.
  congruence.
Qed.

(** X2.  The converse of the scan order.  When a miss returns [v], then [v]
    is a candidate of 1..2500 and either [v] passed the first test after all
    candidates before it were rejected by the first test, or some candidate
    [z] went to the second branch after all candidates before it were
    rejected by the first test, and [v] is the first candidate that passes
    the second test.  The solver never returns a candidate that failed its
    test. *)
Theorem joides_result_inv d t g s v :
  memoize_dict s !! d = None ->
  fst (joides d t g s) = Return (Some v) ->
  1 <= v <= 2500 /\
  ((accepted1 d t g v /\ forall z', 1 <= z' < v -> rejected1 d t g z') \/
   (accepted2 d t g v /\
    (forall z2', 1 <= z2' < v -> rejected2 d t g z2') /\
    exists z, 1 <= z <= 2500 /\ switches d z /\
      forall z', 1 <= z' < z -> rejected1 d t g z')).
Proof.
  intros Hmiss. rewrite joides_eq, Hmiss. unfold fst.
  destruct (search_out d t g) as [[|v']|e] eqn:Es; try done.
  intros [= ->]. split; [by eapply search_out_ret|].
  apply range_inv in Es as (z & Hz & Hbefore & Hout); [|done].
  pose proof (before_a_value_rejected1 d t g z v Hout Hbefore) as Hrej.
  apply outer_out_ret_inv in Hout as [Hpos [[-> Hacc]|[Hsw Hin]]].
  - by left.
  - right. apply inner_res_ret in Hin as (Hv & Hin & Hbefore2).
    apply inner_out_ret_inv in Hin as (_ & _ & Hacc).
    split; [done|]. split.
    + intros z2' Hz2'. by apply inner_out_next_inv, Hbefore2.
    + exists z. split; [lia|]. done.
Qed.

(** Depth 0 at 4 degrees and 30 degrees per km returns 1. *)
Lemma joides_result_inv_witness :
  memoize_dict init_state !! 0 = None /\
  fst (joides 0 4 30 init_state) = Return (Some 1) /\
  1 <= 1 <= 2500 /\
  ((accepted1 0 4 30 1 /\ forall z', 1 <= z' < 1 -> rejected1 0 4 30 z') \/
   (accepted2 0 4 30 1 /\
    (forall z2', 1 <= z2' < 1 -> rejected2 0 4 30 z2') /\
    exists z, 1 <= z <= 2500 /\ switches 0 z /\
      forall z', 1 <= z' < z -> rejected1 0 4 30 z')).
Proof.
  assert (Hres : fst (joides 0 4 30 init_state) = Return (Some 1)).
  { rewrite joides_init. unfold fst. rewrite <- solve_eq. apply solve_0_4_30. }
  split; [apply lookup_empty|]. split; [done|].
  apply (joides_result_inv 0 4 30 init_state 1 (lookup_empty _) Hres).
Defined.

(** ** The dictionary between calls *)

(** X3.  A found candidate is looked up afterwards.  After a call that
    returned [v], every later call for the same depth, whatever its
    bottom-water temperature and gradient, returns [v] at once: it takes no
    logarithm and leaves the state as it is. *)
Theorem found_then_hit d t g s v :
  fst (joides d t g s) = Return (Some v) ->
  forall t' g',
    joides d t' g' (snd (joides d t g s)) =
      (Return (Some v), snd (joides d t g s)).
Proof.
  rewrite joides_eq. intros Hres t' g'.
  destruct (memoize_dict s !! d) as [v0|] eqn:E; cbn in Hres.
  - injection Hres as ->. unfold snd. by rewrite joides_eq, E.
  - destruct (search_out d t g) as [[|v0]|e]; try done.
    injection Hres as ->. unfold snd. rewrite joides_eq.
    unfold memoize_dict at 1, stored. by rewrite lookup_insert_eq.
Qed.

(** Depth 0 at 4 degrees, then at 25 degrees. *)
Lemma found_then_hit_witness :
  fst (joides 0 4 30 init_state) = Return (Some 1) /\
  joides 0 25 60 (snd (joides 0 4 30 init_state)) =
    (Return (Some 1), snd (joides 0 4 30 init_state)).
Proof.
  assert (Hres : fst (joides 0 4 30 init_state) = Return (Some 1)).
  { rewrite joides_init. unfold fst. rewrite <- solve_eq. apply solve_0_4_30. }
  split; [done|].
  apply (found_then_hit 0 4 30 init_state 1 Hres 25 60).
Defined.

(** X4.  [None] and exceptions are not remembered.  After a call that did
    not return a candidate, the same call again ends the same way after
    taking the same logarithms once more. *)
Theorem not_found_searched_again d t g s :
  (forall v, fst (joides d t g s) <> Return (Some v)) ->
  exists new,
    snd (joides d t g s) = State (memoize_dict s) (new ++ log_calls s) /\
    joides d t g (snd (joides d t g s)) =
      (fst (joides d t g s),
       State (memoize_dict s) (new ++ new ++ log_calls s)).
Proof.
  rewrite joides_eq. intros Hres.
  destruct (memoize_dict s !! d) as [v0|] eqn:E; cbn in Hres.
  - by destruct (Hres v0).
  - exists (search_log d t g).
    destruct (search_out d t g) as [[|v0]|e] eqn:Es; cbn in Hres;
      [| by destruct (Hres v0) |].
    + split; [done|]. unfold snd, fst. rewrite joides_eq.
      unfold memoize_dict at 1, stored. by rewrite E, Es.
    + split; [done|]. unfold snd, fst. rewrite joides_eq.
      unfold memoize_dict at 1, stored. by rewrite E, Es.
Qed.

(** Depth 2000 at 4 degrees and 5 degrees per km finds nothing. *)
Lemma not_found_searched_again_witness :
  (forall v, fst (joides 2000 4 5 init_state) <> Return (Some v)) /\
  exists new,
    snd (joides 2000 4 5 init_state) =
      State (memoize_dict init_state) (new ++ log_calls init_state) /\
    joides 2000 4 5 (snd (joides 2000 4 5 init_state)) =
      (fst (joides 2000 4 5 init_state),
       State (memoize_dict init_state) (new ++ new ++ log_calls init_state)).
Proof.
  assert (Hres : forall v, fst (joides 2000 4 5 init_state) <> Return (Some v)).
  { intros v. rewrite joides_init. unfold fst.
    by rewrite <- solve_eq, solve_2000_4_5. }
  split; [done|].
  apply (not_found_searched_again 2000 4 5 init_state Hres).
Defined.

(** X5.  A call reads nothing of the dictionary but the entry of its own
    depth: two states that agree on that entry give the same result,
    whatever else they hold. *)
Theorem result_reads_own_entry d t g s1 s2 :
  memoize_dict s1 !! d = memoize_dict s2 !! d ->
  fst (joides d t g s1) = fst (joides d t g s2).
Proof.
  intros H. rewrite !joides_eq, H. by destruct (memoize_dict s2 !! d).
Qed.

(** The state left by a call at depth 2000 agrees with the first state on
    the entry of depth 0. *)
Lemma result_reads_own_entry_witness :
  memoize_dict (snd (joides 2000 30 30 init_state)) !! 0
    = memoize_dict init_state !! 0 /\
  fst (joides 0 4 30 (snd (joides 2000 30 30 init_state)))
    = fst (joides 0 4 30 init_state).
Proof.
  assert (H : memoize_dict (snd (joides 2000 30 30 init_state)) !! 0
              = memoize_dict init_state !! 0).
  { rewrite joides_init. unfold snd, memoize_dict at 1, stored.
    destruct (search_out 2000 30 30) as [[|v]|e]; [done| |done].
    unfold init_state, memoize_dict. by rewrite lookup_insert_ne. }
  split; [done|].
  apply (result_reads_own_entry 0 4 30 _ init_state H).
Defined.

(** ** Deep water: the second curve alone *)

Lemma loop_log_length_all_next {A} (out : Z -> result (ctl A))
    (tr : Z -> list R) zs (k : nat) :
  (forall z, z ∈ zs -> out z = Return Next /\ length (tr z) = k) ->
  length (loop_log out tr zs) = (k * length zs)%nat.
Proof.
  induction zs as [|z zs IH]; intros H; cbn [loop_log length]; [lia|].
  destruct (H z) as [-> Hlen]; [apply list_elem_of_here|].
  rewrite length_app, Hlen, IH; [lia|].
  intros z' Hz'. apply H. by apply list_elem_of_further.
Qed.

Lemma scanned_length d lo hi : length (scanned d lo hi) = Z.to_nat (hi - lo).
Proof. unfold scanned. by rewrite length_rev, length_map, length_range. Qed.

Lemma scanned_one d : scanned d 1 (1 + 1) = [log_arg d 1].
Proof. by rewrite scanned_snoc by lia. Qed.

Lemma inner_log_exhausted d t g :
  0 <= d -> (forall z2, 1 <= z2 <= 2500 -> rejected2 d t g z2) ->
  inner_log d t g = scanned d 1 2501.
Proof.
  intros Hd H. unfold inner_log, scanned.
  apply (loop_log_all_next _ _ (log_arg d)). intros z2 Hz2%elem_of_range.
  split; [|done]. apply inner_out_rejected; [apply log_arg_pos; lia|apply H; lia].
Qed.

(** X6.  From a depth of 1136 on, the first curve is never consulted.  On a
    miss the solver returns, and stores, the first candidate that passes the
    second test, having taken the logarithm of the first candidate and then
    those of the inner scan up to the returned one. *)
Theorem deep_water_second_curve d t g s z2 :
  1136 <= d -> memoize_dict s !! d = None ->
  1 <= z2 <= 2500 ->
  (forall z2', 1 <= z2' < z2 -> rejected2 d t g z2') ->
  accepted2 d t g z2 ->
  joides d t g s =
    (Return (Some z2),
     State (<[d := z2]> (memoize_dict s))
           (scanned d 1 (z2 + 1) ++ log_arg d 1 :: log_calls s)).
Proof.
  intros Hd Hmiss Hz2 Hbefore Hacc.
  assert (Hd0 : 0 <= d) by lia.
  assert (Hsw : switches d 1) by (apply switches_from_1137; lia).
  assert (Hnone : forall z', 1 <= z' < 1 -> rejected1 d t g z') by (intros; lia).
  rewrite joides_eq, Hmiss.
  rewrite (search_second_branch d t g Hd0 1 z2 ltac:(lia) Hz2 Hnone Hsw Hbefore Hacc).
  rewrite (search_log_second_branch d t g Hd0 1 z2 ltac:(lia) Hz2 Hnone Hsw Hbefore Hacc).
  rewrite scanned_one. cbn [returned stored]. by rewrite <- app_assoc.
Qed.

(** Depth 2000 at 30 degrees and 30 degrees per km. *)
Lemma deep_water_second_curve_witness :
  1136 <= 2000 /\ memoize_dict init_state !! 2000 = None /\
  1 <= 1 <= 2500 /\
  (forall z2', 1 <= z2' < 1 -> rejected2 2000 30 30 z2') /\
  accepted2 2000 30 30 1 /\
  joides 2000 30 30 init_state =
    (Return (Some 1),
     State (<[2000 := 1]> (memoize_dict init_state))
           (scanned 2000 1 (1 + 1) ++ log_arg 2000 1 :: log_calls init_state)).
Proof.
  assert (Hnone : forall z2', 1 <= z2' < 1 -> rejected2 2000 30 30 z2')
    by (intros; lia).
  split; [lia|]. split; [apply lookup_empty|]. split; [lia|].
  split; [done|]. split; [apply accepted2_2000_30_30|].
  apply (deep_water_second_curve 2000 30 30 init_state 1 ltac:(lia)
           (lookup_empty _) ltac:(lia) Hnone accepted2_2000_30_30).
Defined.

(** X7.  An unsolvable depth of 1136 or more costs a full scan of scans:
    on a miss the solver returns [None] after exactly 2500 * 2501
    evaluations of the logarithm. *)
Theorem deep_unsolvable_cost d t g s :
  1136 <= d -> memoize_dict s !! d = None ->
  (forall z2, 1 <= z2 <= 2500 -> rejected2 d t g z2) ->
  exists new,
    joides d t g s = (Return None, State (memoize_dict s) (new ++ log_calls s)) /\
    Z.of_nat (length new) = 2500 * 2501.
Proof.
  intros Hd Hmiss Hrej.
  assert (Hd0 : 0 <= d) by lia.
  assert (Hin : inner_res d t g = Return Next) by (by apply inner_res_exhausted).
  assert (Hout : forall z, 1 <= z < 2501 -> outer_out d t g z = Return Next).
  { intros z Hz. rewrite outer_out_switches; [done|apply log_arg_pos; lia|].
    apply switches_from_1137. lia. }
  assert (Hlog : forall z, 1 <= z < 2501 ->
            length (outer_log d t g z) = 2501%nat).
  { intros z Hz. unfold outer_log.
    rewrite py_log_pos by (apply log_arg_pos; lia).
    pose proof (switches_from_1137 d z ltac:(lia)) as Hsw.
    unfold switches, pressure_log in Hsw. fold (log_arg d z) in Hsw.
    destruct (Rgt_dec _ _); [|done].
    rewrite length_app, (inner_log_exhausted d t g Hd0 Hrej), scanned_length.
    cbn [length]. lia. }
  exists (search_log d t g). split.
  - rewrite joides_eq, Hmiss. unfold search_out at 1 2.
    by rewrite (range_all_next _ 1 2501 Hout).
  - unfold search_log.
    rewrite (loop_log_length_all_next _ _ _ 2501%nat), length_range; [lia|].
    intros z Hz%elem_of_range. split; [by apply Hout|by apply Hlog].
Qed.

(** Depth 2000 at 4 degrees and 5 degrees per km. *)
Lemma deep_unsolvable_cost_witness :
  1136 <= 2000 /\ memoize_dict init_state !! 2000 = None /\
  (forall z2, 1 <= z2 <= 2500 -> rejected2 2000 4 5 z2) /\
  exists new,
    joides 2000 4 5 init_state =
      (Return None,
       State (memoize_dict init_state) (new ++ log_calls init_state)) /\
    Z.of_nat (length new) = 2500 * 2501.
Proof.
  split; [lia|]. split; [apply lookup_empty|].
  split; [apply rejected2_2000_4_5|].
  apply (deep_unsolvable_cost 2000 4 5 init_state ltac:(lia)
           (lookup_empty _) rejected2_2000_4_5).
Defined.

(** ** Exceptions of the solver *)

Lemma search_negative d t g :
  d < 0 ->
  search_out d t g = Raise ValueError /\ search_log d t g = [log_arg d 1].
Proof.
  intros Hd.
  assert (Hlog : py_log (log_arg d 1) = Raise ValueError).
  { unfold py_log, log_arg.
    assert (IZR (d + 1) <= 0)%R by (apply IZR_le; lia).
    destruct (Rlt_dec _ _) as [H'|H']; [lra|done]. }
  assert (E : outer_out d t g 1 = Raise ValueError)
    by (unfold outer_out; by rewrite Hlog).
  split.
  - unfold search_out.
    rewrite (range_first _ 1 2501 1); [done|lia| |by rewrite E].
    intros z' Hz'. lia.
  - unfold search_log.
    rewrite (range_first_log _ _ (log_arg d) 1 2501 1); [|lia| |by rewrite E].
    + unfold outer_log. by rewrite Hlog.
    + intros z' Hz'. lia.
Qed.

(** X8.  On a miss the solver raises [ValueError] exactly for negative
    depths, and then at the first candidate: one logarithm is attempted and
    the dictionary is left as it was. *)
Theorem value_error_iff_negative d t g s :
  memoize_dict s !! d = None ->
  (fst (joides d t g s) = Raise ValueError <-> d < 0) /\
  (d < 0 ->
   snd (joides d t g s) = State (memoize_dict s) (log_arg d 1 :: log_calls s)).
Proof.
  intros Hmiss. rewrite joides_eq, Hmiss. unfold fst, snd. split.
  - split.
    + intros Hres. destruct (Z_lt_le_dec d 0) as [|Hd]; [done|exfalso].
      pose proof (search_out_no_value_error d t g Hd).
      by destruct (search_out d t g) as [[|v]|[]].
    + intros Hd. by destruct (search_negative d t g Hd) as [-> _].
  - intros Hd. by destruct (search_negative d t g Hd) as [-> ->].
Qed.

(** Depth -5. *)
Lemma value_error_iff_negative_witness :
  memoize_dict init_state !! (-5) = None /\
  fst (joides (-5) 4 30 init_state) = Raise ValueError /\
  snd (joides (-5) 4 30 init_state) =
    State (memoize_dict init_state) (log_arg (-5) 1 :: log_calls init_state).
Proof.
  destruct (value_error_iff_negative (-5) 4 30 init_state (lookup_empty _))
    as [Hiff Hstate].
  split; [apply lookup_empty|]. split.
  - apply Hiff. lia.
  - apply Hstate. lia.
Defined.

Lemma below_curve_raise t g c k z a e :
  below_curve t g c k z a = Raise e ->
  e = ZeroDivisionError /\ kelvin t g z = 0%R.
Proof.
  unfold below_curve, py_div. destruct (Req_dec_T _ _) as [Hk|]; [by intros [= <-]|].
  by destruct (Rlt_dec _ _).
Qed.

Lemma py_log_raise x e : py_log x = Raise e -> e = ValueError.
Proof. unfold py_log. destruct (Rlt_dec 0 x); [done|]. by intros [= <-]. Qed.

Lemma search_zero_division d t g :
  search_out d t g = Raise ZeroDivisionError ->
  exists z, 1 <= z <= 2500 /\ kelvin t g z = 0%R.
Proof.
  intros Es. apply range_inv in Es as (z & Hz & _ & Hout); [|done].
  revert Hout. unfold outer_out.
  destruct (py_log (log_arg d z)) as [a|e] eqn:El.
  - destruct (Rgt_dec _ _).
    + intros Hin. apply range_inv in Hin as (z2 & Hz2 & _ & Hout); [|done].
      revert Hout. unfold inner_out.
      destruct (py_log (log_arg d z2)) as [a2|e] eqn:El2.
      * intros Hb. apply below_curve_raise in Hb as [_ Hk].
        exists z2. split; [lia|done].
      * apply py_log_raise in El2 as ->. done.
    + intros Hb. apply below_curve_raise in Hb as [_ Hk].
      exists z. split; [lia|done].
  - apply py_log_raise in El as ->. done.
Qed.

(** X9.  From -273 degrees on, with a non-negative gradient, the solver
    never divides by zero: the divisor of either curve is at least 0.15 at
    every candidate, and no call ends in [ZeroDivisionError], whatever the
    depth and the state. *)
Theorem no_zero_division_from_minus_273 d t g s :
  (-273 <= t)%R -> (0 <= g)%R ->
  (forall z, 1 <= z -> (0.15 <= kelvin t g z)%R) /\
  fst (joides d t g s) <> Raise ZeroDivisionError.
Proof.
  intros Ht Hg.
  assert (Hk : forall z, 1 <= z -> (0.15 <= kelvin t g z)%R).
  { intros z Hz. apply IZR_le in Hz. unfold kelvin. nra. }
  split; [done|]. rewrite joides_eq.
  destruct (memoize_dict s !! d) as [v|]; [done|]. unfold fst.
  destruct (search_out d t g) as [[|v]|e] eqn:Es; try done.
  intros [= ->]. apply search_zero_division in Es as (z & Hz & Hzero).
  pose proof (Hk z ltac:(lia)). lra.
Qed.

(** Depth 0 at -273 degrees without gradient. *)
Lemma no_zero_division_from_minus_273_witness :
  (-273 <= -273)%R /\ (0 <= 0)%R /\
  (forall z, 1 <= z -> (0.15 <= kelvin (-273) 0 z)%R) /\
  fst (joides 0 (-273) 0 init_state) <> Raise ZeroDivisionError.
Proof.
  split; [lra|]. split; [lra|].
  apply (no_zero_division_from_minus_273 0 (-273) 0 init_state); lra.
Defined.

(** ** How the answer moves with the depth *)

Lemma pressure_log_depth_mono d d' z :
  1 <= d + z -> d <= d' -> (pressure_log d z <= pressure_log d' z)%R.
Proof.
  intros Hpos Hle. apply (pressure_log_upper d z (d' + z)). lia.
Qed.

Lemma rejected2_deeper d d' t g z2 :
  1 <= d + z2 -> d <= d' -> rejected2 d t g z2 -> rejected2 d' t g z2.
Proof.
  intros Hpos Hle [Hk Hrej]. split; [done|].
  pose proof (pressure_log_depth_mono d d' z2 Hpos Hle). lra.
Qed.

Lemma accepted2_shallower d d' t g z2 :
  1 <= d + z2 -> d <= d' -> accepted2 d' t g z2 -> accepted2 d t g z2.
Proof.
  intros Hpos Hle [Hk Hacc]. split; [done|].
  pose proof (pressure_log_depth_mono d d' z2 Hpos Hle). lra.
Qed.

(** X10.  Unsolvable stays unsolvable with depth: when the search for a
    non-negative depth finds nothing, the search for every greater depth
    finds nothing either. *)
Theorem unsolvable_monotone d d' t g :
  0 <= d <= d' -> solve d t g = Return None -> solve d' t g = Return None.
Proof.
  intros Hd. rewrite !solve_eq. intros Hs.
  assert (Hnext : search_out d t g = Return Next)
    by (by destruct (search_out d t g) as [[|v]|e]).
  rewrite (search_exhausted d' t g ltac:(lia)); [done| |].
  - intros z Hz.
    assert (Ho : outer_out d t g z = Return Next)
      by (eapply range_next_inv; [done|lia]).
    pose proof (pressure_log_depth_mono d d' z ltac:(lia) ltac:(lia)) as Hmono.
    destruct (outer_out_next_inv d t g z Ho) as [_ [(Hle & Hk & Hrej)|[Hsw _]]].
    + destruct (Rle_lt_dec (pressure_log d' z) 9.355001) as [Hle'|Hgt'].
      * right. split; [done|]. split; [done|]. lra.
      * by left.
    + left. unfold switches in *. lra.
  - intros z2 Hz2. apply (rejected2_deeper d d'); [lia|lia|].
    by apply (search_next_inner d t g ltac:(lia) Hnext).
Qed.

(** Depth 2000 and depth 2500 at 4 degrees and 5 degrees per km. *)
Lemma unsolvable_monotone_witness :
  0 <= 2000 <= 2500 /\ solve 2000 4 5 = Return None /\
  solve 2500 4 5 = Return None.
Proof.
  split; [lia|]. split; [apply solve_2000_4_5|].
  apply (unsolvable_monotone 2000 2500 4 5 ltac:(lia) solve_2000_4_5).
Defined.

(** The inner scan ends at the latest at a candidate that passes, when no
    candidate up to it has a zero divisor. *)
Lemma inner_found_upto d t g k :
  0 <= d -> 1 <= k <= 2500 ->
  (forall z, 1 <= z <= k -> kelvin t g z <> 0%R) ->
  accepted2 d t g k ->
  exists v, 1 <= v <= k /\ inner_res d t g = Return (Ret v).
Proof.
  intros Hd Hk Hnz Hacc.
  assert (E : inner_out d t g k = Return (Ret k))
    by (apply inner_out_accepted; [apply log_arg_pos; lia|done]).
  destruct (range_exits_by (inner_out d t g) 1 2501 k) as (z & Hz & _ & Hhit & Hres);
    [lia|by rewrite E|].
  exists z. split; [lia|]. unfold inner_res. rewrite Hres.
  revert Hhit. unfold inner_out.
  rewrite py_log_pos by (apply log_arg_pos; lia).
  rewrite below_curve2_eq by (apply Hnz; lia).
  by destruct (Rlt_dec _ _).
Qed.

(** X11.  In deep water the answer grows with the depth: for depths from
    1136 on, when the greater depth has the answer [v'], the smaller depth
    has an answer too, and it is at most [v']. *)
Theorem deep_results_monotone d d' t g v' :
  1136 <= d <= d' -> solve d' t g = Return (Some v') ->
  exists v, solve d t g = Return (Some v) /\ 1 <= v <= v'.
Proof.
  intros Hd. rewrite !solve_eq. intros Hs.
  destruct (search_out d' t g) as [[|v0]|e] eqn:Es; try done.
  injection Hs as ->.
  apply range_inv in Es as (z & Hz & _ & Hout); [|done].
  apply outer_out_ret_inv in Hout as [_ [[_ (Hle & _)]|[_ Hin]]].
  { pose proof (switches_from_1137 d' z ltac:(lia)) as Hsw.
    unfold switches in Hsw. lra. }
  apply inner_res_ret in Hin as (Hv' & Hacc & Hbefore).
  apply inner_out_ret_inv in Hacc as (_ & _ & Hacc).
  destruct (inner_found_upto d t g v') as (v & Hv & Hres); [lia|lia| | |].
  - intros z2 Hz2. destruct (Z_lt_le_dec z2 v') as [Hlt|Hge].
    + by destruct (inner_out_next_inv d' t g z2 (Hbefore z2 ltac:(lia))) as [_ [Hk _]].
    + replace z2 with v' by lia. by destruct Hacc.
  - by apply (accepted2_shallower d d'); [lia|lia|].
  - exists v. split; [|done].
    assert (E : outer_out d t g 1 = Return (Ret v)).
    { rewrite outer_out_switches; [done|apply log_arg_pos; lia|].
      apply switches_from_1137. lia. }
    unfold search_out.
    rewrite (range_first _ 1 2501 1); [by rewrite E|lia| |by rewrite E].
    intros z' Hz'. lia.
Qed.

(** Depth 1500 below depth 2000 at 30 degrees and 30 degrees per km. *)
Lemma deep_results_monotone_witness :
  1136 <= 1500 <= 2000 /\ solve 2000 30 30 = Return (Some 1) /\
  exists v, solve 1500 30 30 = Return (Some v) /\ 1 <= v <= 1.
Proof.
  split; [lia|]. split; [apply solve_2000_30_30|].
  apply (deep_results_monotone 1500 2000 30 30 1 ltac:(lia) solve_2000_30_30).
Defined.

(** ** Shallow water, and typical parameters *)

(** X12.  Water shallower than 246 m gets the answer 1.  For depths
    0..245, a bottom-water temperature of at least 0 degrees and a
    non-negative gradient, a miss returns and stores 1 after one
    logarithm. *)
Theorem shallow_water_returns_one d t g s :
  0 <= d <= 245 -> (0 <= t)%R -> (0 <= g)%R ->
  memoize_dict s !! d = None ->
  joides d t g s =
    (Return (Some 1),
     State (<[d := 1]> (memoize_dict s)) (log_arg d 1 :: log_calls s)).
Proof.
  intros Hd Ht Hg Hmiss.
  assert (Hd0 : 0 <= d) by lia.
  assert (Hacc : accepted1 d t g 1).
  { pose proof (pressure_log_upper d 1 246 ltac:(lia)) as Hlog.
    pose proof ln_246 as H246.
    assert (Hk : (273.15 <= kelvin t g 1)%R) by (unfold kelvin; nra).
    pose proof (curve1_lower t g 1 273.15 ltac:(lra)) as Hc.
    split; [lra|]. split; lra. }
  assert (Hnone : forall z', 1 <= z' < 1 -> rejected1 d t g z') by (intros; lia).
  rewrite joides_eq, Hmiss.
  rewrite (search_first_branch d t g Hd0 1 ltac:(lia) Hnone Hacc).
  rewrite (search_log_first_branch d t g Hd0 1 ltac:(lia) Hnone Hacc).
  by rewrite scanned_one.
Qed.

(** Depth 100 at 4 degrees and 30 degrees per km. *)
Lemma shallow_water_returns_one_witness :
  0 <= 100 <= 245 /\ (0 <= 4)%R /\ (0 <= 30)%R /\
  memoize_dict init_state !! 100 = None /\
  joides 100 4 30 init_state =
    (Return (Some 1),
     State (<[100 := 1]> (memoize_dict init_state))
           (log_arg 100 1 :: log_calls init_state)).
Proof.
  split; [lia|]. split; [lra|]. split; [lra|]. split; [apply lookup_empty|].
  apply (shallow_water_returns_one 100 4 30 init_state ltac:(lia)
           ltac:(lra) ltac:(lra) (lookup_empty _)).
Defined.

(** X13.  Under typical parameters every depth in 0..2500 is solvable, and
    the answer [v] lies where the temperature is still below 305 K: the
    candidate before it is colder than 305 K. *)
Theorem typical_depths_solvable t g d :
  typical t g -> 0 <= d <= 2500 ->
  exists v, solve d t g = Return (Some v) /\ 1 <= v <= 2500 /\
    (kelvin t g (v - 1) < 305)%R.
Proof.
  intros Htyp Hd.
  destruct (crossing_305 t g Htyp) as (k & Hk & Hbelow & Habove & _).
  destruct (depth_found_by_crossing t g Htyp d k Hd ltac:(lia) Habove)
    as (v & Hv & Hs).
  exists v. split; [done|]. split; [lia|].
  destruct Htyp as [_ Hg].
  pose proof (kelvin_mono t g (v - 1) (k - 1) ltac:(lra) ltac:(lia)). lra.
Qed.

(** Depth 1000 at 4 degrees and 30 degrees per km. *)
Lemma typical_depths_solvable_witness :
  typical 4 30 /\ 0 <= 1000 <= 2500 /\
  exists v, solve 1000 4 30 = Return (Some v) /\ 1 <= v <= 2500 /\
    (kelvin 4 30 (v - 1) < 305)%R.
Proof.
  assert (Htyp : typical 4 30) by (unfold typical; lra).
  split; [done|]. split; [lia|].
  apply (typical_depths_solvable 4 30 1000 Htyp). lia.
Defined.

